(** * Address formatter agent: decomposition, search cascade and statistics

    A shallow embedding of [AddressFormatterAgent] (src/index.ts as kept in
    src/unnamed/part_000): [correctAddress], [formatAddress],
    [generateNominatimUrl], [handleFormatAddress], [handleSearch] and
    [getStats], with the agent state threaded explicitly.

    Strings are sequences of 8-bit code units.  The string functions below
    agree with their JavaScript counterparts on strings whose code units are
    all below 256: [toLowerCase] and the white-space class are the Latin-1
    restrictions of the Unicode ones, and word characters, digits and
    [a-z] are ASCII classes as in a regular expression without the [u] flag. *)

From Stdlib Require Import String Ascii List Arith Bool Lia QArith.
Import ListNotations.
Local Open Scope list_scope.
Local Open Scope string_scope.
Local Open Scope nat_scope.

(** ** JavaScript string primitives *)

Module JsString.

Definition code (c : ascii) : nat := nat_of_ascii c.

Definition between (lo hi : nat) (c : ascii) : bool :=
  (lo <=? code c) && (code c <=? hi).

(** [\s] of a regular expression, also the set removed by [trim()]:
    TAB, LF, VT, FF, CR, SPACE and NO-BREAK SPACE. *)
Definition isSpace (c : ascii) : bool :=
  between 9 13 c || (code c =? 32) || (code c =? 160).

(** [\d]. *)
Definition isDigit (c : ascii) : bool := between 48 57 c.

(** [[a-z]]. *)
Definition isLower (c : ascii) : bool := between 97 122 c.

Definition isUpper (c : ascii) : bool := between 65 90 c.

(** [\w]: the characters between which [\b] sees no boundary. *)
Definition isWord (c : ascii) : bool :=
  isLower c || isUpper c || isDigit c || (code c =? 95).

(** One code unit of [String.prototype.toLowerCase]: A-Z, and the Latin-1
    capitals U+00C0..U+00DE except the multiplication sign U+00D7. *)
Definition lowerChar (c : ascii) : ascii :=
  if isUpper c || (between 192 222 c && negb (code c =? 215))
  then ascii_of_nat (code c + 32) else c.

(** Canonicalisation of the [i] flag on the pattern's ASCII letters. *)
Definition upperAscii (c : ascii) : ascii :=
  if isLower c then ascii_of_nat (code c - 32) else c.

Fixpoint toLowerCase (s : string) : string :=
  match s with
  | EmptyString => EmptyString
  | String c s' => String (lowerChar c) (toLowerCase s')
  end.

Fixpoint trimStart (s : string) : string :=
  match s with
  | EmptyString => EmptyString
  | String c s' => if isSpace c then trimStart s' else s
  end.

(** [trimEnd] keeps a character when it is not white space or when
    something survives after it. *)
Fixpoint trimEnd (s : string) : string :=
  match s with
  | EmptyString => EmptyString
  | String c s' =>
      match trimEnd s' with
      | EmptyString => if isSpace c then EmptyString else String c EmptyString
      | t => String c t
      end
  end.

Definition trim (s : string) : string := trimEnd (trimStart s).

(** [s.includes(needle)]. *)
Fixpoint includes (needle s : string) : bool :=
  prefix needle s ||
  match s with
  | EmptyString => false
  | String _ s' => includes needle s'
  end.

(** [xs.join(sep)]. *)
Fixpoint join (sep : string) (xs : list string) : string :=
  match xs with
  | [] => EmptyString
  | [x] => x
  | x :: rest => x ++ sep ++ join sep rest
  end.

(** [s.split(/[...]/)] for a separator that is a one-character class:
    [cur] holds the characters read so far of the current segment. *)
Fixpoint splitAcc (sep : ascii -> bool) (cur : string) (s : string)
  : list string :=
  match s with
  | EmptyString => [cur]
  | String c s' =>
      if sep c then cur :: splitAcc sep EmptyString s'
      else splitAcc sep (cur ++ String c EmptyString) s'
  end.

Definition split (sep : ascii -> bool) (s : string) : list string :=
  splitAcc sep EmptyString s.

End JsString.

(** ** Backtracking regular expressions

    The fragment of ECMAScript patterns used by [formatAddress]: literals,
    character classes, [\b], sequence, ordered alternation, greedy [?], and
    greedy [*] and [+] over a character class.  The matcher is written in
    continuation-passing style, so that alternatives and repetitions are
    retried in the priority order of the ECMAScript backtracking semantics. *)

Module Regex.
Import JsString.

Inductive regex : Type :=
| Chr (p : ascii -> bool)
| WordB
| Eps
| Seq (r1 r2 : regex)
| Alt (r1 r2 : regex)
| Opt (r : regex)
| Star (p : ascii -> bool)
| Plus (p : ascii -> bool).

(** A literal; [ci] is the [i] flag. *)
Fixpoint Lit (ci : bool) (s : string) : regex :=
  match s with
  | EmptyString => Eps
  | String c s' =>
      Seq (Chr (fun x => if ci then Ascii.eqb (upperAscii x) (upperAscii c)
                         else Ascii.eqb x c))
          (Lit ci s')
  end.

Fixpoint alts (rs : list regex) : regex :=
  match rs with
  | [] => Chr (fun _ => false)
  | [r] => r
  | r :: rest => Alt r (alts rest)
  end.

Definition wordBefore (prev : option ascii) : bool :=
  match prev with Some c => isWord c | None => false end.

Definition wordAfter (s : string) : bool :=
  match s with String c _ => isWord c | EmptyString => false end.

(** A continuation receives the character before the current position
    and the input that is left, and answers with what is left after the
    whole match, if there is one. *)
Definition cont : Type := option ascii -> string -> option string.

Fixpoint star (p : ascii -> bool) (k : cont) (prev : option ascii)
  (s : string) : option string :=
  match s with
  | String c s' =>
      if p c then
        match star p k (Some c) s' with
        | Some rest => Some rest
        | None => k prev s
        end
      else k prev s
  | EmptyString => k prev s
  end.

Fixpoint run (r : regex) (k : cont) (prev : option ascii) (s : string)
  : option string :=
  match r with
  | Chr p =>
      match s with
      | String c s' => if p c then k (Some c) s' else None
      | EmptyString => None
      end
  | WordB => if xorb (wordBefore prev) (wordAfter s) then k prev s else None
  | Eps => k prev s
  | Seq r1 r2 => run r1 (run r2 k) prev s
  | Alt r1 r2 =>
      match run r1 k prev s with
      | Some rest => Some rest
      | None => run r2 k prev s
      end
  | Opt r1 =>
      match run r1 k prev s with
      | Some rest => Some rest
      | None => k prev s
      end
  | Star p => star p k prev s
  | Plus p =>
      match s with
      | String c s' => if p c then star p k (Some c) s' else None
      | EmptyString => None
      end
  end.

(** The match that starts at the current position, as what is left of
    the input after it. *)
Definition exec (r : regex) (prev : option ascii) (s : string)
  : option string :=
  run r (fun _ rest => Some rest) prev s.

(** [s.replace(/r/g, repl)] with a constant replacement.  [skip] counts
    the characters of the current match that are still to be dropped; a
    match is looked for at every position outside a match, and after an
    empty match the search moves on by one character. *)
Fixpoint replaceFrom (r : regex) (repl : string) (prev : option ascii)
  (skip : nat) (s : string) : string :=
  match s with
  | EmptyString =>
      match skip, exec r prev EmptyString with
      | 0, Some _ => repl
      | _, _ => EmptyString
      end
  | String c s' =>
      match skip with
      | S n => replaceFrom r repl (Some c) n s'
      | 0 =>
          match exec r prev s with
          | Some rest =>
              match String.length s - String.length rest with
              | 0 => repl ++ String c (replaceFrom r repl (Some c) 0 s')
              | S n => repl ++ replaceFrom r repl (Some c) n s'
              end
          | None => String c (replaceFrom r repl (Some c) 0 s')
          end
      end
  end.

Definition replaceAll (r : regex) (repl : string) (s : string) : string :=
  replaceFrom r repl None 0 s.

End Regex.

(** ** The data model *)

(** [alternativeQueries] of a [FormattedAddress]; an absent field is [None]. *)
Record AlternativeQueries : Type := mkAlternativeQueries {
  neighbourhoodOnly : option string;
  townOnly : option string;
  localGovernmentOnly : option string
}.

(** [interface FormattedAddress]: the optional fields are options. *)
Record FormattedAddress : Type := mkFormattedAddress {
  street : option string;
  neighbourhood : option string;
  town : option string;
  localGovernment : option string;
  state : option string;
  formattedQuery : string;
  alternativeQueries : option AlternativeQueries
}.

(** The five address components of a [FormattedAddress], in the order in
    which [formatAddress] pushes them on [queryParts]. *)
Definition components (fa : FormattedAddress) : list (option string) :=
  [street fa; neighbourhood fa; town fa; localGovernment fa; state fa].

(** The components that are assigned, in that same order. *)
Fixpoint assigned (os : list (option string)) : list string :=
  match os with
  | [] => []
  | Some s :: rest => s :: assigned rest
  | None :: rest => assigned rest
  end.

(** ** formatAddress *)

Module Formatter.
Import JsString Regex.

Fixpoint seqs (rs : list regex) : regex :=
  match rs with
  | [] => Eps
  | [r] => r
  | r :: rest => Seq r (seqs rest)
  end.

(** [/\s+/g] *)
Definition reSpaces : regex := Plus isSpace.

(** [/\b(?:no\.|number)?\s*\d+[a-z]?\b/g] *)
Definition reHouseNumber : regex :=
  seqs [WordB; Opt (Alt (Lit false "no.") (Lit false "number"));
        Star isSpace; Plus isDigit; Opt (Chr isLower); WordB].

(** [/\b(?:off|adjacent to|beside|near|opposite|behind|in front of|next to)\b\s*/gi] *)
Definition reDirectional : regex :=
  seqs [WordB;
        alts (map (Lit true)
                ["off"; "adjacent to"; "beside"; "near"; "opposite";
                 "behind"; "in front of"; "next to"]);
        WordB; Star isSpace].

(** [/\b(?:the|at|on|in)\b\s*/gi] *)
Definition reFillers : regex :=
  seqs [WordB; alts (map (Lit true) ["the"; "at"; "on"; "in"]);
        WordB; Star isSpace].

(** [/[,\/\\]/g] *)
Definition isSeparator (c : ascii) : bool :=
  (code c =? 44) || (code c =? 47) || (code c =? 92).

(** [address.toLowerCase().replace(/\s+/g, ' ').trim()] *)
Definition cleanAddress (address : string) : string :=
  trim (replaceAll reSpaces " " (toLowerCase address)).

(** The four replacements and the [trim()] that give [withoutDescriptives]. *)
Definition stripDescriptives (cleanedAddress : string) : string :=
  trim
    (replaceAll reSpaces " "
       (replaceAll reFillers ""
          (replaceAll reDirectional ""
             (replaceAll reHouseNumber "" cleanedAddress)))).

(** [.split(/[,\/\\]/g).map(part => part.trim()).filter(part => part.length > 0)] *)
Definition splitParts (withoutDescriptives : string) : list string :=
  filter (fun part => 0 <? String.length part)
    (map trim (split isSeparator withoutDescriptives)).

Definition addressParts (address : string) : list string :=
  splitParts (stripDescriptives (cleanAddress address)).

(** Truthiness of an optional string field: [undefined] and the empty
    string are falsy. *)
Definition truthy (o : option string) : bool :=
  match o with
  | Some s => negb (String.eqb s "")
  | None => false
  end.

Definition hasNeighbourhoodKeyword (part : string) : bool :=
  includes "district" part || includes "area" part || includes "quarter" part.

Definition emptyAddress : FormattedAddress :=
  mkFormattedAddress None None None None None "" None.

Definition setStreet (v : option string) (fa : FormattedAddress) :=
  mkFormattedAddress v (neighbourhood fa) (town fa) (localGovernment fa)
    (state fa) (formattedQuery fa) (alternativeQueries fa).
Definition setNeighbourhood (v : option string) (fa : FormattedAddress) :=
  mkFormattedAddress (street fa) v (town fa) (localGovernment fa)
    (state fa) (formattedQuery fa) (alternativeQueries fa).
Definition setTown (v : option string) (fa : FormattedAddress) :=
  mkFormattedAddress (street fa) (neighbourhood fa) v (localGovernment fa)
    (state fa) (formattedQuery fa) (alternativeQueries fa).
Definition setLocalGovernment (v : option string) (fa : FormattedAddress) :=
  mkFormattedAddress (street fa) (neighbourhood fa) (town fa) v
    (state fa) (formattedQuery fa) (alternativeQueries fa).
Definition setState (v : option string) (fa : FormattedAddress) :=
  mkFormattedAddress (street fa) (neighbourhood fa) (town fa)
    (localGovernment fa) v (formattedQuery fa) (alternativeQueries fa).
Definition setFormattedQuery (v : string) (fa : FormattedAddress) :=
  mkFormattedAddress (street fa) (neighbourhood fa) (town fa)
    (localGovernment fa) (state fa) v (alternativeQueries fa).
Definition setAlternativeQueries (v : AlternativeQueries)
  (fa : FormattedAddress) :=
  mkFormattedAddress (street fa) (neighbourhood fa) (town fa)
    (localGovernment fa) (state fa) (formattedQuery fa) (Some v).

(** [parts[i]]: [undefined], here [None], past the end. *)
Definition part (parts : list string) (i : nat) : option string :=
  nth_error parts i.

(** Lines 159-179: the positional assignment, one binding per statement. *)
Definition assignComponents (parts : list string) : FormattedAddress :=
  let n := List.length parts in
  let fa := emptyAddress in
  let fa := if 1 <=? n then setStreet (part parts 0) fa else fa in
  let fa :=
    if 2 <=? n then
      if hasNeighbourhoodKeyword (nth 1 parts "") then
        let fa := setNeighbourhood (part parts 1) fa in
        if 3 <=? n then setTown (part parts 2) fa else fa
      else setTown (part parts 1) fa
    else fa in
  let fa :=
    if (3 <=? n) && negb (truthy (town fa))
    then setLocalGovernment (part parts 2) fa
    else if 4 <=? n then setLocalGovernment (part parts 3) fa
    else fa in
  let fa :=
    if (4 <=? n) && negb (truthy (localGovernment fa))
    then setState (part parts 3) fa
    else if 5 <=? n then setState (part parts 4) fa
    else fa in
  fa.

(** [queryParts.push(x)] behind [if (x)]. *)
Definition pushIf (o : option string) (queryParts : list string)
  : list string :=
  if truthy o then
    match o with Some s => (queryParts ++ [s])%list | None => queryParts end
  else queryParts.

(** Lines 182-189. *)
Definition buildQuery (fa : FormattedAddress) : string :=
  let queryParts := [] in
  let queryParts := pushIf (street fa) queryParts in
  let queryParts := pushIf (neighbourhood fa) queryParts in
  let queryParts := pushIf (town fa) queryParts in
  let queryParts := pushIf (localGovernment fa) queryParts in
  let queryParts := pushIf (state fa) queryParts in
  join ", " queryParts.

(** [x ? x : undefined] *)
Definition orUndefined (o : option string) : option string :=
  if truthy o then o else None.

(** Lines 192-196. *)
Definition buildAlternatives (fa : FormattedAddress) : AlternativeQueries :=
  mkAlternativeQueries (orUndefined (neighbourhood fa))
    (orUndefined (town fa)) (orUndefined (localGovernment fa)).

Definition formatParts (parts : list string) : FormattedAddress :=
  let fa := assignComponents parts in
  let fa := setFormattedQuery (buildQuery fa) fa in
  setAlternativeQueries (buildAlternatives fa) fa.

Definition formatAddress (address : string) : FormattedAddress :=
  formatParts (addressParts address).

End Formatter.

(** ** The agent: state, effects and handlers *)

Module Agent.
Import JsString Formatter.

(** *** State *)

(** [correctionStats] of the agent state. *)
Record CorrectionStats : Type := mkStats {
  spellingCorrected : nat;
  missingComponentsAdded : nat;
  totalProcessed : nat
}.

(** One element of [processedAddresses]; [corrected] is
    [result.correctedAddress], [None] when the reply has no such
    property. *)
Record HistoryEntry : Type := mkEntry {
  original : string;
  corrected : option string;
  timestamp : string
}.

Record AgentState : Type := mkState {
  processedAddresses : list HistoryEntry;
  correctionStats : CorrectionStats
}.

(** The state set by [init()]. *)
Definition init : AgentState :=
  mkState [] (mkStats 0 0 0).

(** *** The outside world *)

(** The value [correctAddress] resolves to: the object parsed from the
    model's reply, or the fallback object.  A property the object lacks
    is [None]. *)
Record CorrectionResult : Type := mkResult {
  correctedAddress : option string;
  corrections : option (list string);
  confidence : option Q
}.

(** What [JSON.parse(response.choices[0].message.content)] gives when it
    returns: an object, or a value that is no object ([null], a number,
    a string, a boolean, an array), none of which has [corrections]. *)
Inductive Parsed : Type :=
| NonObject
| Object (r : CorrectionResult).

(** What lines 67-97 meet: the completion call rejects (network error,
    timeout, no choice in the response), the content is not JSON, or it
    parses. *)
Inductive AiReply : Type :=
| CallFails
| NotJson
| Parses (v : Parsed).

(** One match record of the geocoder; its content is not inspected. *)
Definition Place : Type := string.

(** What one request meets outside the agent: the model's reply, the
    clock, and the geocoder, which maps a URL to the parsed body of the
    response, [None] when [fetch] or [json()] rejects. *)
Record Env : Type := mkEnv {
  aiReply : AiReply;
  now : string;
  geocode : string -> option (list Place)
}.

(** *** The effect monad: agent state, the trace of geocoder calls, and
    exceptions.  A [Throw] keeps the state reached so far: JavaScript
    does not undo mutations when an exception unwinds. *)

Inductive exn : Type := NetworkError | SyntaxError | TypeError.

Record Machine : Type := mkMachine {
  agent : AgentState;
  fetched : list string
}.

Inductive Outcome (A : Type) : Type :=
| Ok (a : A)
| Throw (e : exn).
Arguments Ok {A} a.
Arguments Throw {A} e.

Definition M (A : Type) : Type := Machine -> Outcome A * Machine.

Definition ret {A} (a : A) : M A := fun m => (Ok a, m).

Definition throw {A} (e : exn) : M A := fun m => (Throw e, m).

Definition bind {A B} (c : M A) (k : A -> M B) : M B :=
  fun m =>
    match c m with
    | (Ok a, m') => k a m'
    | (Throw e, m') => (Throw e, m')
    end.

(** [try { c } catch (error) { h error }] *)
Definition tryCatch {A} (c : M A) (h : exn -> M A) : M A :=
  fun m =>
    match c m with
    | (Ok a, m') => (Ok a, m')
    | (Throw e, m') => h e m'
    end.

Definition getState : M AgentState := fun m => (Ok (agent m), m).

(** [this.setState(st)] *)
Definition setState (st : AgentState) : M unit :=
  fun m => (Ok tt, mkMachine st (fetched m)).

(** An update in place of the [correctionStats] object of the state. *)
Definition modifyStats (f : CorrectionStats -> CorrectionStats) : M unit :=
  fun m =>
    (Ok tt,
     mkMachine (mkState (processedAddresses (agent m))
                  (f (correctionStats (agent m))))
       (fetched m)).

(** [await (await fetch(url)).json()], recorded in the trace. *)
Definition fetchJson (env : Env) (url : string) : M (list Place) :=
  fun m =>
    let m' := mkMachine (agent m) (fetched m ++ [url])%list in
    match geocode env url with
    | Some data => (Ok data, m')
    | None => (Throw NetworkError, m')
    end.

Declare Scope agent_scope.
Delimit Scope agent_scope with agent.
Notation "x <- c ;; k" := (bind c (fun x => k))
  (at level 61, c at next level, right associativity) : agent_scope.
Notation "c ;; k" := (bind c (fun _ => k))
  (at level 61, right associativity) : agent_scope.
Local Open Scope agent_scope.

(** *** correctAddress *)

(** [xs.slice(-n)] *)
Definition sliceLast {A} (n : nat) (xs : list A) : list A :=
  skipn (List.length xs - n) xs.

Definition incSpellingCorrected (s : CorrectionStats) : CorrectionStats :=
  mkStats (S (spellingCorrected s)) (missingComponentsAdded s)
    (totalProcessed s).

Definition incTotalProcessed (s : CorrectionStats) : CorrectionStats :=
  mkStats (spellingCorrected s) (missingComponentsAdded s)
    (S (totalProcessed s)).

(** Lines 67-97. *)
Definition chatCompletion (env : Env) : M Parsed :=
  match aiReply env with
  | CallFails => throw NetworkError
  | NotJson => throw SyntaxError
  | Parses v => ret v
  end.

(** [result.corrections.length]: a [TypeError] when [result] has no
    [corrections]. *)
Definition correctionsLength (result : Parsed) : M (CorrectionResult * nat) :=
  match result with
  | NonObject => throw TypeError
  | Object r =>
      match corrections r with
      | None => throw TypeError
      | Some cs => ret (r, List.length cs)
      end
  end.

(** The object returned by the [catch] block. *)
Definition fallback (address : string) : CorrectionResult :=
  mkResult (Some address) (Some []) (Some 0%Q).

Definition newEntry (env : Env) (address : string) (r : CorrectionResult)
  : HistoryEntry :=
  mkEntry address (correctedAddress r) (now env).

(** The body of the [try] block, lines 67-116. *)
Definition correctAddressBody (env : Env) (address : string)
  : M CorrectionResult :=
  result <- chatCompletion env ;;
  rl <- correctionsLength result ;;
  let (r, len) := (rl : CorrectionResult * nat) in
  (if 0 <? len then modifyStats incSpellingCorrected else ret tt) ;;
  modifyStats incTotalProcessed ;;
  st <- getState ;;
  setState
    (mkState
       (sliceLast 100 (processedAddresses st ++ [newEntry env address r])%list)
       (correctionStats st)) ;;
  ret r.

Definition correctAddress (env : Env) (address : string)
  : M CorrectionResult :=
  tryCatch (correctAddressBody env address)
    (fun _ => ret (fallback address)).

(** *** generateNominatimUrl *)

Definition hexDigit (n : nat) : ascii :=
  if n <? 10 then ascii_of_nat (48 + n) else ascii_of_nat (55 + n).

Definition percent (byte : nat) : string :=
  String "%" (String (hexDigit (byte / 16))
                (String (hexDigit (byte mod 16)) EmptyString)).

(** The characters [encodeURIComponent] leaves alone:
    letters, digits and [- _ . ! ~ * ' ( )]. *)
Definition isUnreserved (c : ascii) : bool :=
  isLower c || isUpper c || isDigit c ||
  existsb (Nat.eqb (code c)) [45; 95; 46; 33; 126; 42; 39; 40; 41].

(** Every other character is replaced by the escapes of its UTF-8
    bytes: one byte below 128, two from 128 to 255. *)
Definition encodeChar (c : ascii) : string :=
  if isUnreserved c then String c EmptyString
  else if code c <? 128 then percent (code c)
  else (percent (192 + code c / 64) ++ percent (128 + code c mod 64))%string.

Fixpoint encodeURIComponent (s : string) : string :=
  match s with
  | EmptyString => EmptyString
  | String c s' => (encodeChar c ++ encodeURIComponent s')%string
  end.

Definition generateNominatimUrl (query : string) : string :=
  ("https://nm.latlens.com/nominatim/search?q="
     ++ encodeURIComponent query ++ "&format=json")%string.

(** *** Requests and responses *)

(** A JavaScript object used as a map from keys to values, in insertion
    order. *)
Definition JsObject (V : Type) : Type := list (string * V).

(** [obj[key] = v] *)
Fixpoint setProp {V} (key : string) (v : V) (obj : JsObject V) : JsObject V :=
  match obj with
  | [] => [(key, v)]
  | (k, w) :: rest =>
      if String.eqb k key then (k, v) :: rest
      else (k, w) :: setProp key v rest
  end.

(** [Object.keys(obj)] *)
Definition keys {V} (obj : JsObject V) : list string := map fst obj.

(** The JSON bodies the handlers serialise. *)
Inductive Body : Type :=
| ErrorBody (error : string)
| FormatBody (original : string) (result : CorrectionResult)
    (formatted : FormattedAddress) (nominatimUrl : string)
    (alternativeUrls : JsObject string)
| SearchBody (original : string) (result : CorrectionResult)
    (formatted : FormattedAddress) (results : list Place)
    (alternativeResults : option (JsObject (list Place)))
| StatsBody (stats : CorrectionStats) (recentAddresses : list HistoryEntry).

Inductive Response : Type :=
| Json (status : nat) (body : Body)
| Text (status : nat) (text : string).

(** The body of a POST: unreadable ([request.json()] rejects, or yields
    [null]), or an object with or without [address]. *)
Inductive RequestBody : Type :=
| Unreadable
| Payload (address : option string).

Record Request : Type := mkRequest {
  path : string;
  method : string;
  q : option string;
  payload : RequestBody
}.

(** [alternativeQueries?.field] *)
Definition alt (field : AlternativeQueries -> option string)
  (fa : FormattedAddress) : option string :=
  match alternativeQueries fa with
  | Some a => field a
  | None => None
  end.

(** [formatAddress(correctionResult.correctedAddress)]: a [TypeError]
    from [address.toLowerCase()] when the argument is [undefined]. *)
Definition formatCorrected (r : CorrectionResult) : M FormattedAddress :=
  match correctedAddress r with
  | Some a => ret (formatAddress a)
  | None => throw TypeError
  end.

(** *** handleFormatAddress *)

Definition addUrl (key : string) (o : option string)
  (urls : JsObject string) : JsObject string :=
  if truthy o then
    match o with
    | Some x => setProp key (generateNominatimUrl x) urls
    | None => urls
    end
  else urls.

Definition handleFormatAddress (env : Env) (request : Request) : M Response :=
  tryCatch
    (match payload request with
     | Unreadable => throw SyntaxError
     | Payload address =>
         if negb (truthy address) then
           ret (Json 400 (ErrorBody "Address is required"))
         else
           let address := match address with Some a => a | None => "" end in
           correctionResult <- correctAddress env address ;;
           formattedAddress <- formatCorrected correctionResult ;;
           let nominatimUrl :=
             generateNominatimUrl (formattedQuery formattedAddress) in
           let alternativeUrls := [] in
           let alternativeUrls :=
             addUrl "neighbourhoodOnly"
               (alt neighbourhoodOnly formattedAddress) alternativeUrls in
           let alternativeUrls :=
             addUrl "townOnly" (alt townOnly formattedAddress)
               alternativeUrls in
           let alternativeUrls :=
             addUrl "localGovernmentOnly"
               (alt localGovernmentOnly formattedAddress) alternativeUrls in
           ret (Json 200
                  (FormatBody address correctionResult formattedAddress
                     nominatimUrl alternativeUrls))
     end)
    (fun _ => ret (Json 500 (ErrorBody "Failed to process address"))).

(** *** handleSearch *)

(** One alternative query of lines 288-298: asked only when its text is
    truthy, its answer stored under [key]. *)
Definition tryAlternative (env : Env) (key : string) (o : option string)
  (alternativeResults : JsObject (list Place))
  : M (JsObject (list Place)) :=
  if truthy o then
    match o with
    | Some x =>
        data <- fetchJson env (generateNominatimUrl x) ;;
        ret (setProp key data alternativeResults)
    | None => ret alternativeResults
    end
  else ret alternativeResults.

(** The [try] block of [handleSearch], lines 277-312. *)
Definition searchCascade (env : Env) (query : string)
  (correctionResult : CorrectionResult) (formattedAddress : FormattedAddress)
  : M Response :=
  let nominatimUrl :=
    generateNominatimUrl (formattedQuery formattedAddress) in
  data <- fetchJson env nominatimUrl ;;
  let alternativeResults := [] in
  alternativeResults <-
    (if List.length data <? 2 then
       alternativeResults <-
         tryAlternative env "town" (alt townOnly formattedAddress)
           alternativeResults ;;
       tryAlternative env "neighborhood"
         (alt neighbourhoodOnly formattedAddress) alternativeResults
     else ret alternativeResults) ;;
  ret (Json 200
         (SearchBody query correctionResult formattedAddress data
            (if 0 <? List.length (keys alternativeResults)
             then Some alternativeResults else None))).

Definition handleSearch (env : Env) (request : Request) : M Response :=
  if negb (truthy (q request)) then
    ret (Json 400 (ErrorBody "Query parameter is required"))
  else
    let query := match q request with Some x => x | None => "" end in
    correctionResult <- correctAddress env query ;;
    formattedAddress <- formatCorrected correctionResult ;;
    tryCatch (searchCascade env query correctionResult formattedAddress)
      (fun _ => ret (Json 500 (ErrorBody "Failed to fetch from Nominatim"))).

(** *** getStats and the router *)

Definition getStats : M Response :=
  st <- getState ;;
  ret (Json 200
         (StatsBody (correctionStats st)
            (sliceLast 10 (processedAddresses st)))).

Definition onRequest (env : Env) (request : Request) : M Response :=
  if String.eqb (path request) "/format-address"
     && String.eqb (method request) "POST"
  then handleFormatAddress env request
  else if String.eqb (path request) "/search"
          && String.eqb (method request) "GET"
  then handleSearch env request
  else if String.eqb (path request) "/stats"
          && String.eqb (method request) "GET"
  then getStats
  else ret (Text 200 "Nominatim Address Formatter API - AI Agent Edition").

(** *** Runs of the agent *)

(** The operations of the agent a caller can invoke. *)
Inductive Call : Type :=
| Correct (address : string)
| Format (address : string)
| Serve (request : Request).

(** The machine after one call; [formatAddress] touches no state. *)
Definition step (m : Machine) (ec : Env * Call) : Machine :=
  match ec with
  | (env, Correct address) => snd (correctAddress env address m)
  | (_, Format address) => snd (ret (formatAddress address) m)
  | (env, Serve request) => snd (onRequest env request m)
  end.

Definition run (calls : list (Env * Call)) (m : Machine) : Machine :=
  fold_left step calls m.

(** The machine of a fresh agent. *)
Definition start : Machine := mkMachine init [].

(** A run of [correctAddress] calls, with the values they resolve to. *)
Fixpoint correctAll (calls : list (Env * string)) (m : Machine)
  : list (Outcome CorrectionResult) * Machine :=
  match calls with
  | [] => ([], m)
  | (env, address) :: rest =>
      let (o, m') := correctAddress env address m in
      let (os, m'') := correctAll rest m' in
      (o :: os, m'')
  end.

End Agent.

(** * Observations on machines, and the worlds used in examples *)

Section Observations.
Import JsString Formatter Agent.

(** What [formatAddress] returns when no segment is left. *)
Definition noComponents : FormattedAddress :=
  mkFormattedAddress None None None None None ""
    (Some (mkAlternativeQueries None None None)).

(** The three noise patterns find nothing to remove in [s]. *)
Definition noiseFree (s : string) : Prop :=
  Regex.replaceAll reHouseNumber "" s = s
  /\ Regex.replaceAll reDirectional "" s = s
  /\ Regex.replaceAll reFillers "" s = s.

Definition stats (m : Machine) : CorrectionStats := correctionStats (agent m).

Definition history (m : Machine) : list HistoryEntry :=
  processedAddresses (agent m).

(** The reply lets the [try] block of [correctAddress] run to its end:
    it parses to an object that has [corrections]. *)
Definition answered (env : Env) : option (CorrectionResult * list string) :=
  match aiReply env with
  | Parses (Object r) =>
      match corrections r with
      | Some cs => Some (r, cs)
      | None => None
      end
  | _ => None
  end.

(** The machine after a call that ran to its end. *)
Definition recordCorrection (env : Env) (address : string)
  (r : CorrectionResult) (cs : list string) (m : Machine) : Machine :=
  mkMachine
    (mkState
       (sliceLast 100 (history m ++ [newEntry env address r])%list)
       (mkStats
          (if 0 <? List.length cs then S (spellingCorrected (stats m))
           else spellingCorrected (stats m))
          (missingComponentsAdded (stats m))
          (S (totalProcessed (stats m)))))
    (fetched m).

(** A world in which the model answers with text that is not JSON. *)
Definition envNotJson : Env :=
  mkEnv NotJson "2025-01-01T00:00:00.000Z" (fun _ => None).

(** The call resolved to a result with a non-empty [corrections]. *)
Definition yieldedCorrections (o : Outcome CorrectionResult) : bool :=
  match o with
  | Ok r =>
      match corrections r with
      | Some (_ :: _) => true
      | _ => false
      end
  | Throw _ => false
  end.

Definition isAnswered (call : Env * string) : bool :=
  match answered (fst call) with Some _ => true | None => false end.

(** The history entries that a run of [correctAddress] calls records:
    one for each call whose [try] block ran to its end. *)
Fixpoint recorded (calls : list (Env * string)) : list HistoryEntry :=
  match calls with
  | [] => []
  | (env, address) :: rest =>
      match answered env with
      | Some (r, _) => newEntry env address r :: recorded rest
      | None => recorded rest
      end
  end.

(** A world in which the completion call rejects. *)
Definition envCallFails : Env :=
  mkEnv CallFails "2025-01-01T00:00:00.000Z" (fun _ => None).

(** A world in which, at time [t], the model answers with the corrected
    [address] and the corrections [cs]. *)
Definition envAnswer (address : string) (cs : list string) (t : string) : Env :=
  mkEnv (Parses (Object (mkResult (Some address) (Some cs) (Some (9 # 10)%Q))))
    t (fun _ => Some []).

Definition pushEntry (h : list HistoryEntry) (e : HistoryEntry)
  : list HistoryEntry :=
  sliceLast 100 (h ++ [e]).

(** [n] strokes: a different address for each [n]. *)
Fixpoint tally (n : nat) : string :=
  match n with
  | 0 => EmptyString
  | S k => String "i" (tally k)
  end.

Definition tallyCall (n : nat) : Env * string :=
  (envAnswer (tally n) [] "2025-01-01T00:00:00.000Z", tally n).

Definition tallyEntry (n : nat) : HistoryEntry :=
  mkEntry (tally n) (Some (tally n)) "2025-01-01T00:00:00.000Z".

(** The trace after one more geocoder call. *)
Definition asked (m : Machine) (urls : list string) : Machine :=
  mkMachine (agent m) (fetched m ++ urls)%list.

(** [fa] with another [localGovernmentOnly]. *)
Definition withLocalGovernmentOnly (v : option string) (fa : FormattedAddress)
  : FormattedAddress :=
  mkFormattedAddress (street fa) (neighbourhood fa) (town fa)
    (localGovernment fa) (state fa) (formattedQuery fa)
    (match alternativeQueries fa with
     | Some a =>
         Some (mkAlternativeQueries (neighbourhoodOnly a) (townOnly a) v)
     | None => None
     end).

(** A geocoder that finds one place for every query. *)
Definition envOnePlace : Env :=
  mkEnv CallFails "2025-01-01T00:00:00.000Z" (fun _ => Some ["Ikeja, Lagos"]).

(** A geocoder that finds nothing for any query. *)
Definition envNoPlace : Env :=
  mkEnv CallFails "2025-01-01T00:00:00.000Z" (fun _ => Some []).

(** The computation leaves [missingComponentsAdded] as it found it. *)
Definition keeps {A} (c : M A) : Prop :=
  forall m : Machine,
    missingComponentsAdded (stats (snd (c m)))
    = missingComponentsAdded (stats m).

End Observations.

(** * The address parser worker

    The second program kept in src/unnamed/part_000 (lines 353-439, and
    again with another prompt in lines 440-523): one [fetch] handler that
    asks a model for a JSON object and repairs the reply when it does not
    parse.  [JSON.parse] is a parameter: [None] stands for its
    [SyntaxError]. *)

Module Worker.
Import JsString Regex Formatter.

Definition backslash : ascii := ascii_of_nat 92.
Definition doubleQuote : ascii := ascii_of_nat 34.
Definition apostrophe : ascii := ascii_of_nat 39.

(** [/\\n/g]: a backslash followed by the letter n. *)
Definition reEscapedNewline : regex :=
  Lit false (String backslash (String "n" EmptyString)).

(** The pattern of the second [replace] of line 404: a backslash followed
    by a double quote. *)
Definition reEscapedQuote : regex :=
  Lit false (String backslash (String doubleQuote EmptyString)).

(** [/\{.*\}/s]: with the [s] flag the dot matches every character. *)
Definition reBraces : regex :=
  Seq (Lit false "{") (Seq (Star (fun _ => true)) (Lit false "}")).

(** The class of the third [replace]: an apostrophe or a double quote. *)
Definition isQuote (c : ascii) : bool :=
  Ascii.eqb c apostrophe || Ascii.eqb c doubleQuote.

Definition dropFirstQuote (s : string) : string :=
  match s with
  | String c s' => if isQuote c then s' else s
  | EmptyString => EmptyString
  end.

Fixpoint dropLastQuote (s : string) : string :=
  match s with
  | EmptyString => EmptyString
  | String c EmptyString => if isQuote c then EmptyString else s
  | String c s' => String c (dropLastQuote s')
  end.

(** The third [replace] of line 405, whose pattern is a quote after [^] or
    a quote before [$], replaced by nothing: the first alternative can only
    match at index 0 and takes one quote there; the second can only match
    the last character, at an index the first match has not consumed. *)
Definition stripQuotes (s : string) : string :=
  dropLastQuote (dropFirstQuote s).

(** [s.match(r)] for a pattern without the [g] flag: the match at the
    first index that has one, as the matched text. *)
Fixpoint matchFrom (r : regex) (prev : option ascii) (s : string)
  : option string :=
  match exec r prev s with
  | Some rest => Some (substring 0 (String.length s - String.length rest) s)
  | None =>
      match s with
      | EmptyString => None
      | String c s' => matchFrom r (Some c) s'
      end
  end.

Definition matchFirst (r : regex) (s : string) : option string :=
  matchFrom r None s.

(** Lines 403-405. *)
Definition cleanedString (result : string) : string :=
  stripQuotes
    (replaceAll reEscapedQuote (String doubleQuote EmptyString)
       (replaceAll reEscapedNewline "" result)).

Section Handler.

(** The JSON values, and [JSON.parse]. *)
Variable J : Type.
Variable parse : string -> option J.

(** What [ai.run] gives: it rejects with a message, or resolves to a value
    whose [typeof] is ['object'], or to a string. *)
Inductive RunResult : Type :=
| RunFails (message : string)
| RunObject (v : J)
| RunText (text : string).

(** The responses of the handler: the plain 400, the 200 that carries
    [JSON.stringify(cleanResult)], and the 500 with [error] and [details]. *)
Inductive Reply : Type :=
| BadRequest (text : string)
| Parsed (cleanResult : J)
| Failed (error details : string).

(** The inner [try] and its [catch], lines 396-419: the parsed value, or
    the message of the error thrown. *)
Definition cleanAndParse (result : RunResult) : string + J :=
  match result with
  | RunFails message => inl message
  | RunObject v => inr v
  | RunText text =>
      match parse text with
      | Some v => inr v
      | None =>
          match matchFirst reBraces (cleanedString text) with
          | Some jsonMatch =>
              match parse jsonMatch with
              | Some v => inr v
              | None => inl "Failed to parse AI response as JSON"
              end
          | None => inl "Failed to parse AI response as JSON"
          end
      end
  end.

(** [fetch], lines 360-438, for the query parameter [q] and the outcome of
    [ai.run]. *)
Definition fetch (q : option string) (result : RunResult) : Reply :=
  if negb (truthy q) then BadRequest "Query parameter 'q' is required"
  else
    match cleanAndParse result with
    | inr cleanResult => Parsed cleanResult
    | inl message => Failed "Failed to process address" message
    end.

End Handler.

Arguments RunFails {J} message.
Arguments RunObject {J} v.
Arguments RunText {J} text.
Arguments BadRequest {J} text.
Arguments Parsed {J} cleanResult.
Arguments Failed {J} error details.

End Worker.

(** * Notions for the further properties *)

Section MoreObservations.
Import JsString Formatter Agent.

(** Every character of [s] satisfies [P]. *)
Fixpoint allChars (P : ascii -> bool) (s : string) : bool :=
  match s with
  | EmptyString => true
  | String c s' => P c && allChars P s'
  end.

(** [s] does not begin with white space. *)
Definition startsClean (s : string) : Prop :=
  match s with
  | String c _ => isSpace c = false
  | EmptyString => True
  end.

(** [s] begins with white space. *)
Definition startsWithSpace (s : string) : bool :=
  match s with
  | String c _ => isSpace c
  | EmptyString => false
  end.

(** Every white-space character of [s] is a space, and none is followed
    by white space. *)
Fixpoint singleSpaced (s : string) : bool :=
  match s with
  | EmptyString => true
  | String c s' =>
      (if isSpace c then Ascii.eqb c " " && negb (startsWithSpace s')
       else true)
      && singleSpaced s'
  end.

(** The number of white-space characters in front of [s], and what
    follows them. *)
Fixpoint spaceRun (s : string) : nat :=
  match s with
  | String c s' => if isSpace c then S (spaceRun s') else 0
  | EmptyString => 0
  end.

Fixpoint dropSpaces (s : string) : string :=
  match s with
  | String c s' => if isSpace c then dropSpaces s' else s
  | EmptyString => EmptyString
  end.

(** [s] with every run of white space replaced by one space; with
    [inRun] the white space in front of [s] belongs to a run that has
    been written already. *)
Fixpoint squeeze (inRun : bool) (s : string) : string :=
  match s with
  | EmptyString => EmptyString
  | String c s' =>
      if isSpace c then
        if inRun then squeeze true s' else String " " (squeeze true s')
      else String c (squeeze false s')
  end.

(** The characters an encoded query is made of. *)
Definition isQueryChar (c : ascii) : bool :=
  isUnreserved c || Ascii.eqb c "%".

(** The value of an upper-case hexadecimal digit. *)
Definition hexValue (c : ascii) : option nat :=
  if isDigit c then Some (code c - 48)
  else if between 65 70 c then Some (code c - 55)
  else None.

(** Reads one escape [%XY] in front of [s]. *)
Definition readEscape (s : string) : option (nat * string) :=
  match s with
  | String p (String h (String l rest)) =>
      if Ascii.eqb p "%" then
        match hexValue h, hexValue l with
        | Some a, Some b => Some (16 * a + b, rest)
        | _, _ => None
        end
      else None
  | _ => None
  end.

(** Reads back the first character of an encoded string: the inverse of
    [encodeChar], used to show that the encoding loses nothing. *)
Definition decodeChar (s : string) : option (ascii * string) :=
  match s with
  | EmptyString => None
  | String c rest =>
      if Ascii.eqb c "%" then
        match readEscape s with
        | Some (b, rest1) =>
            if b <? 128 then Some (ascii_of_nat b, rest1)
            else
              match readEscape rest1 with
              | Some (b2, rest2) =>
                  Some (ascii_of_nat ((b - 192) * 64 + (b2 - 128)), rest2)
              | None => None
              end
        | None => None
        end
      else Some (c, rest)
  end.



(** The counters and the history agree: no more corrected spellings than
    processed addresses, and one history entry per processed address up
    to 100. *)
Definition consistent (st : AgentState) : Prop :=
  spellingCorrected (correctionStats st) <= totalProcessed (correctionStats st)
  /\ List.length (processedAddresses st)
     = Nat.min (totalProcessed (correctionStats st)) 100.

(** The computation keeps [I] of the agent state. *)
Definition preserves (I : AgentState -> Prop) {A} (c : M A) : Prop :=
  forall m : Machine, I (agent m) -> I (agent (snd (c m))).

(** An invariant that every recorded correction keeps. *)
Definition keptByCorrections (I : AgentState -> Prop) : Prop :=
  forall (env : Env) (address : string) (r : CorrectionResult)
         (cs : list string) (m : Machine),
    answered env = Some (r, cs) ->
    I (agent m) -> I (agent (recordCorrection env address r cs m)).

(** The HTTP status of a response. *)
Definition status (r : Response) : nat :=
  match r with
  | Json s _ => s
  | Text s _ => s
  end.

(** The request is routed to one of the two handlers that correct an
    address. *)
Definition isCorrectingRoute (request : Request) : bool :=
  (String.eqb (path request) "/format-address"
   && String.eqb (method request) "POST")
  || (String.eqb (path request) "/search"
      && String.eqb (method request) "GET").

(** What follows the last occurrence of [c] in [s]. *)
Fixpoint afterLast (c : ascii) (s : string) : option string :=
  match s with
  | EmptyString => None
  | String x s' =>
      match afterLast c s' with
      | Some rest => Some rest
      | None => if Ascii.eqb x c then Some s' else None
      end
  end.

(** [s] is [pre], an opening brace, [mid], a closing brace and [post],
    with no opening brace in [pre] and no closing brace in [post]: the
    braces are the first opening and the last closing one of [s]. *)
Definition outerBraces (s pre mid post : string) : Prop :=
  s = (pre ++ String "{" (mid ++ String "}" post))%string
  /\ allChars (fun x => negb (Ascii.eqb x "{")) pre = true
  /\ allChars (fun x => negb (Ascii.eqb x "}")) post = true.

(** A toy [JSON.parse] for examples: it accepts the texts that start with
    an opening brace and returns them as they are. *)
Definition braceParse (s : string) : option string :=
  match s with
  | String c _ => if Ascii.eqb c "{" then Some s else None
  | EmptyString => None
  end.

End MoreObservations.

(** * Properties of the decomposition *)

Section Decomposition.
Import JsString Formatter.

Lemma truthy_Some (s : string) : s <> "" -> truthy (Some s) = true.
Proof.
  intros Hs. unfold truthy.
  destruct (String.eqb_spec s "") as [E | _]; [contradiction | reflexivity].
Qed.

Lemma splitParts_nonempty (w : string) :
  Forall (fun part => part <> "") (splitParts w).
Proof.
  unfold splitParts. apply Forall_forall. intros x Hx.
  apply filter_In in Hx. destruct Hx as [_ Hlen].
  intros ->. discriminate Hlen.
Qed.

Lemma addressParts_nonempty (address : string) :
  Forall (fun part => part <> "") (addressParts address).
Proof. apply splitParts_nonempty. Qed.

(** The patterns at work.  A house number takes its "no." or "number" and
    the white space before it; "inn" and "bono." keep their "in" and "no."
    because [\b] fails inside a word; "x9" has no boundary before its digit. *)
Example strip_spec_example :
  stripDescriptives (cleanAddress "No. 15 off Allen Avenue, near GRA")
  = "allen avenue, gra".
Proof. vm_compute. reflexivity. Qed.

Example strip_word_boundaries :
  stripDescriptives
    (cleanAddress
       "Number 7B Opposite  THE bank, at Station road, on inn street, flat 3, x9 number12 bono. 5")
  = "bank, station road, inn street, flat, x9 bono.".
Proof. vm_compute. reflexivity. Qed.

Example split_separators :
  addressParts "12 Adeola  Odeku St / Victoria Island area \ Eti-Osa,, Lagos"
  = ["adeola odeku st"; "victoria island area"; "eti-osa"; "lagos"].
Proof. vm_compute. reflexivity. Qed.

(** A global replace looks for an empty match after every match and at the
    end of the input, as [String.prototype.replace] does. *)
Example replaceAll_empty_matches :
  Regex.replaceAll (Regex.Star (Ascii.eqb "x")) "-" "abc" = "-a-b-c-"
  /\ Regex.replaceAll (Regex.Star (Ascii.eqb "x")) "-" "xxxaxx" = "--a--".
Proof. vm_compute. split; reflexivity. Qed.

(** Splits a list of non-empty segments into its first five elements and
    the rest, each element as a first character and a tail. *)
Ltac nonempty_head H :=
  lazymatch type of H with
  | Forall _ (?p :: _) =>
      let Hx := fresh "Hne" in
      let Hr := fresh "Hrest" in
      apply Forall_cons_iff in H; destruct H as [Hx Hr];
      destruct p as [| ? ?]; [exfalso; apply Hx; reflexivity | clear Hx];
      nonempty_head Hr
  | _ => idtac
  end.

Ltac by_segments parts H :=
  destruct parts as [| p0 [| p1 [| p2 [| p3 [| p4 rest]]]]];
  nonempty_head H;
  cbv beta delta [formatParts assignComponents].

Ltac keyword_cases :=
  try match goal with
      | |- context [hasNeighbourhoodKeyword ?p] =>
          destruct (hasNeighbourhoodKeyword p)
      end.

(** The query is the join of the assigned components, whatever the
    segments, as long as none is empty. *)
Lemma formatParts_query (parts : list string) :
  Forall (fun part => part <> "") parts ->
  formattedQuery (formatParts parts)
  = join ", " (assigned (components (formatParts parts))).
Proof.
  intros H. by_segments parts H; keyword_cases; vm_compute; reflexivity.
Qed.

(** Every assigned component is one of the segments. *)
Lemma formatParts_assigned_incl (parts : list string) :
  Forall (fun part => part <> "") parts ->
  incl (assigned (components (formatParts parts))) parts.
Proof.
  intros H. by_segments parts H; keyword_cases; vm_compute;
    intros x Hx; intuition.
Qed.

Lemma formatParts_nil : formatParts [] = noComponents.
Proof. reflexivity. Qed.

(** With a neighbourhood keyword in the second segment, the components
    after the street are the segments 1, 2, 3 and 4. *)
Lemma formatParts_keyword (parts : list string) :
  Forall (fun part => part <> "") parts ->
  hasNeighbourhoodKeyword (nth 1 parts "") = true ->
  neighbourhood (formatParts parts) = nth_error parts 1
  /\ town (formatParts parts) = nth_error parts 2
  /\ localGovernment (formatParts parts) = nth_error parts 3
  /\ state (formatParts parts) = nth_error parts 4.
Proof.
  intros H K. by_segments parts H; try discriminate K;
    rewrite K; vm_compute; repeat split; reflexivity.
Qed.

(** Without the keyword the town is segment 1, and the later components
    are still read from segments 3 and 4: segment 2 is assigned to
    nothing, because [town] is always set when there are three segments. *)
Lemma formatParts_no_keyword (parts : list string) :
  Forall (fun part => part <> "") parts ->
  hasNeighbourhoodKeyword (nth 1 parts "") = false ->
  neighbourhood (formatParts parts) = None
  /\ town (formatParts parts) = nth_error parts 1
  /\ localGovernment (formatParts parts) = nth_error parts 3
  /\ state (formatParts parts) = nth_error parts 4.
Proof.
  intros H K. by_segments parts H;
    rewrite ?K; vm_compute; repeat split; reflexivity.
Qed.

(** C1.  [formatAddress] is a total function of its input string, and for
    every input the [formattedQuery] it returns is the ", "-join of exactly
    the components assigned in the returned struct, in the order street,
    neighbourhood, town, localGovernment, state; no assigned component is
    the empty string, so the query has no empty placeholder.  When no
    segment survives the stripping, as for the empty input or an input made
    of noise only, the struct has no component and its query is empty. *)
Theorem formatAddress_query_is_join_of_assigned :
  (forall address : string,
      formattedQuery (formatAddress address)
      = join ", " (assigned (components (formatAddress address)))
      /\ ~ In "" (assigned (components (formatAddress address)))
      /\ (addressParts address = [] -> formatAddress address = noComponents))
  /\ formatAddress "" = noComponents
  /\ formatAddress "   " = noComponents
  /\ formatAddress " No. 15  near the , / in front of 12b \ " = noComponents.
Proof.
  split; [| repeat split; vm_compute; reflexivity].
  intros address. split; [| split].
  - apply formatParts_query, addressParts_nonempty.
  - intros Hin. pose proof (addressParts_nonempty address) as H.
    apply (formatParts_assigned_incl _ H) in Hin.
    rewrite Forall_forall in H. exact (H _ Hin eq_refl).
  - unfold formatAddress. intros ->. apply formatParts_nil.
Qed.

Lemma formatAddress_query_is_join_of_assigned_witness :
  addressParts "12, at the" = []
  /\ formatAddress "12, at the" = noComponents.
Proof.
  split; [vm_compute; reflexivity |].
  apply (proj1 formatAddress_query_is_join_of_assigned "12, at the").
  vm_compute; reflexivity.
Defined.

(** C2.  "Allen Avenue, GRA district, Ikeja, Lagos" is decomposed into
    neighbourhood "gra district", town "ikeja", localGovernment "lagos" and
    no state; and for every input whose second segment contains a
    neighbourhood keyword, neighbourhood, town, localGovernment and state
    are the segments 1, 2, 3 and 4: each of the last three lies one segment
    after its place 1, 2, 3 in a plain address. *)
Theorem formatAddress_neighbourhood_shift :
  (let fa := formatAddress "Allen Avenue, GRA district, Ikeja, Lagos" in
   street fa = Some "allen avenue"
   /\ neighbourhood fa = Some "gra district"
   /\ town fa = Some "ikeja"
   /\ localGovernment fa = Some "lagos"
   /\ state fa = None)
  /\ (forall address : string,
         hasNeighbourhoodKeyword (nth 1 (addressParts address) "") = true ->
         neighbourhood (formatAddress address)
         = nth_error (addressParts address) 1
         /\ town (formatAddress address)
            = nth_error (addressParts address) 2
         /\ localGovernment (formatAddress address)
            = nth_error (addressParts address) 3
         /\ state (formatAddress address)
            = nth_error (addressParts address) 4).
Proof.
  split.
  - vm_compute. repeat split; reflexivity.
  - intros address K. unfold formatAddress.
    apply formatParts_keyword; [apply addressParts_nonempty | exact K].
Qed.

Lemma formatAddress_neighbourhood_shift_witness :
  hasNeighbourhoodKeyword
    (nth 1 (addressParts "3 Bank Road, Wuse area, Abuja, AMAC, FCT") "") = true
  /\ town (formatAddress "3 Bank Road, Wuse area, Abuja, AMAC, FCT")
     = nth_error (addressParts "3 Bank Road, Wuse area, Abuja, AMAC, FCT") 2.
Proof.
  split; [vm_compute; reflexivity |].
  apply (proj2 formatAddress_neighbourhood_shift
           "3 Bank Road, Wuse area, Abuja, AMAC, FCT").
  vm_compute; reflexivity.
Defined.

(** C3.  On "Allen Avenue, Ikeja, Lagos, Nigeria" the code sets town to
    "ikeja" but localGovernment to "nigeria", the fourth segment, and no
    state: "lagos" is assigned to no component, where the specification
    asks for localGovernment "lagos" and state "nigeria". *)
Theorem formatAddress_plain_address_skips_third_segment :
  let fa := formatAddress "Allen Avenue, Ikeja, Lagos, Nigeria" in
  addressParts "Allen Avenue, Ikeja, Lagos, Nigeria"
  = ["allen avenue"; "ikeja"; "lagos"; "nigeria"]
  /\ town fa = Some "ikeja"
  /\ localGovernment fa = Some "nigeria"
  /\ state fa = None
  /\ formattedQuery fa = "allen avenue, ikeja, nigeria"
  /\ localGovernment fa <> Some "lagos"
  /\ state fa <> Some "nigeria".
Proof.
  vm_compute. repeat split; try reflexivity; discriminate.
Qed.

(** C7.  "Allen Avenue, Ikeja, Lagos, Nigeria" has no filler and no house
    number, yet decomposing the query of its decomposition does not give
    the same components: the first pass has localGovernment "nigeria", the
    second has none. *)
Theorem formatAddress_not_idempotent :
  let x := "Allen Avenue, Ikeja, Lagos, Nigeria" in
  noiseFree x
  /\ noiseFree (cleanAddress x)
  /\ components (formatAddress x)
     = [Some "allen avenue"; None; Some "ikeja"; Some "nigeria"; None]
  /\ components (formatAddress (formattedQuery (formatAddress x)))
     = [Some "allen avenue"; None; Some "ikeja"; None; None]
  /\ components (formatAddress (formattedQuery (formatAddress x)))
     <> components (formatAddress x).
Proof.
  vm_compute. repeat split; try reflexivity; discriminate.
Qed.

End Decomposition.

(** * Properties of the corrector and of the statistics *)

Section Corrector.
Import Agent.
Local Open Scope agent_scope.

(** The [try] block either runs to its end or throws before it has
    touched the state. *)
Lemma correctAddressBody_cases (env : Env) (address : string) (m : Machine) :
  match answered env with
  | Some (r, cs) =>
      correctAddressBody env address m
      = (Ok r, recordCorrection env address r cs m)
  | None => exists e, correctAddressBody env address m = (Throw e, m)
  end.
Proof.
  unfold answered, correctAddressBody, chatCompletion, bind.
  destruct (aiReply env) as [| | [| r]]; cbn;
    try (eexists; reflexivity).
  unfold correctionsLength. destruct (corrections r) as [cs |]; cbn;
    [| eexists; reflexivity].
  unfold recordCorrection, stats, history.
  destruct m as [[h [sc mca tp]] tr]; cbn.
  destruct (List.length cs) as [| k]; reflexivity.
Qed.

Lemma correctAddress_cases (env : Env) (address : string) (m : Machine) :
  correctAddress env address m
  = match answered env with
    | Some (r, cs) => (Ok r, recordCorrection env address r cs m)
    | None => (Ok (fallback address), m)
    end.
Proof.
  unfold correctAddress, tryCatch.
  pose proof (correctAddressBody_cases env address m) as H.
  destruct (answered env) as [[r cs] |].
  - rewrite H. reflexivity.
  - destruct H as [e ->]. reflexivity.
Qed.

(** C5.  [correctAddress] never ends in an exception: in every state and
    for every reply of the model it returns a value.  Whenever its [try]
    block throws, whatever the exception, the value is exactly
    [{correctedAddress: address, corrections: [], confidence: 0}]; this is
    the case when the completion call rejects (network error, timeout),
    when the content is not JSON, and when the parsed value is no object
    or has no [corrections]. *)
Theorem correctAddress_never_throws :
  forall (env : Env) (address : string) (m : Machine),
    (exists r m', correctAddress env address m = (Ok r, m'))
    /\ (forall e m',
           correctAddressBody env address m = (Throw e, m') ->
           correctAddress env address m = (Ok (fallback address), m'))
    /\ (aiReply env = CallFails
        \/ aiReply env = NotJson
        \/ aiReply env = Parses NonObject
        \/ (exists r, aiReply env = Parses (Object r) /\ corrections r = None) ->
        correctAddress env address m = (Ok (fallback address), m))
    /\ fallback address = mkResult (Some address) (Some []) (Some 0%Q).
Proof.
  intros env address m. split; [| split; [| split]].
  - rewrite correctAddress_cases.
    destruct (answered env) as [[r cs] |]; eauto.
  - intros e m' H. unfold correctAddress, tryCatch. rewrite H. reflexivity.
  - intros H. rewrite correctAddress_cases. unfold answered.
    destruct H as [-> | [-> | [-> | [r [-> ->]]]]]; reflexivity.
  - reflexivity.
Qed.

Lemma correctAddress_never_throws_witness :
  aiReply envNotJson = NotJson
  /\ correctAddress envNotJson "alen avenue ikeja" start
     = (Ok (mkResult (Some "alen avenue ikeja") (Some []) (Some 0%Q)), start).
Proof.
  split; [reflexivity |].
  apply (correctAddress_never_throws envNotJson "alen avenue ikeja" start).
  right; left; reflexivity.
Defined.

End Corrector.

Section Statistics.
Import Agent.

Lemma correctAll_cons (env : Env) (address : string)
  (rest : list (Env * string)) (m : Machine) :
  correctAll ((env, address) :: rest) m
  = (fst (correctAddress env address m)
       :: fst (correctAll rest (snd (correctAddress env address m))),
     snd (correctAll rest (snd (correctAddress env address m)))).
Proof.
  cbn [correctAll].
  destruct (correctAddress env address m) as [o m']. cbn [fst snd].
  destruct (correctAll rest m') as [os m'']. reflexivity.
Qed.

Lemma correctAll_counters (calls : list (Env * string)) (m : Machine) :
  totalProcessed (stats (snd (correctAll calls m)))
  = totalProcessed (stats m) + List.length (filter isAnswered calls)
  /\ spellingCorrected (stats (snd (correctAll calls m)))
     = spellingCorrected (stats m)
       + List.length (filter yieldedCorrections (fst (correctAll calls m)))
  /\ missingComponentsAdded (stats (snd (correctAll calls m)))
     = missingComponentsAdded (stats m).
Proof.
  revert m. induction calls as [| [env address] rest IH]; intros m.
  - cbn. repeat split; lia.
  - rewrite correctAll_cons. cbn [fst snd].
    destruct (IH (snd (correctAddress env address m))) as (IHt & IHs & IHm).
    rewrite IHt, IHs, IHm. clear IH IHt IHs IHm.
    rewrite correctAddress_cases. unfold isAnswered. cbn [filter fst].
    destruct (answered env) as [[r cs] |] eqn:Ha; cbn [fst snd].
    + assert (corrections r = Some cs) as Hcs.
      { unfold answered in Ha. destruct (aiReply env) as [| | [| r']];
          try discriminate.
        destruct (corrections r') eqn:E; inversion Ha; subst; assumption. }
      cbn [yieldedCorrections]. rewrite Hcs.
      unfold recordCorrection, stats. cbn.
      destruct cs; cbn; repeat split; lia.
    + cbn. repeat split; lia.
Qed.

(** C6, as amended.  A call of [correctAddress] increments
    [totalProcessed] when the model's reply is parsed and has
    [corrections], and [spellingCorrected] exactly when the returned
    [corrections] is non-empty; a call that ends in the fallback leaves
    both counters as they were.  After a run of calls on a fresh agent,
    [totalProcessed] is the number of calls that did not fall back and
    [spellingCorrected] is the number K of calls that returned non-empty
    corrections. *)
Theorem counters_count_answered_calls :
  forall calls : list (Env * string),
    totalProcessed (stats (snd (correctAll calls start)))
    = List.length (filter isAnswered calls)
    /\ spellingCorrected (stats (snd (correctAll calls start)))
       = List.length
           (filter yieldedCorrections (fst (correctAll calls start)))
    /\ List.length (filter isAnswered calls) <= List.length calls
    /\ forall (env : Env) (address : string) (m : Machine),
        totalProcessed (stats (snd (correctAddress env address m)))
        = (if isAnswered (env, address) then S (totalProcessed (stats m))
           else totalProcessed (stats m))
        /\ spellingCorrected (stats (snd (correctAddress env address m)))
           = (if yieldedCorrections (fst (correctAddress env address m))
              then S (spellingCorrected (stats m))
              else spellingCorrected (stats m)).
Proof.
  intros calls.
  destruct (correctAll_counters calls start) as (Ht & Hs & _).
  split; [exact Ht | split; [exact Hs | split]].
  - apply filter_length_le.
  - intros env address m.
    destruct (correctAll_counters [(env, address)] m) as (H1 & H2 & _).
    rewrite correctAll_cons in H1, H2. cbn [correctAll fst snd] in H1, H2.
    rewrite H1, H2. cbn [filter].
    destruct (isAnswered (env, address));
      destruct (yieldedCorrections (fst (correctAddress env address m)));
      cbn; split; lia.
Qed.

(** Counterexample to C6 as stated: one call whose completion rejects is a call of
    [correctAddress], yet [totalProcessed] is still 0 after it. *)
Lemma failed_call_is_not_counted :
  List.length [(envCallFails, "alen avenue")] = 1
  /\ totalProcessed
       (stats (snd (correctAll [(envCallFails, "alen avenue")] start))) = 0
  /\ ~ (forall calls : list (Env * string),
           totalProcessed (stats (snd (correctAll calls start)))
           = List.length calls).
Proof.
  split; [reflexivity | split; [reflexivity |]].
  intros H. specialize (H [(envCallFails, "alen avenue")]). discriminate H.
Qed.

(** *** The bounded history *)

Lemma sliceLast_length {A} (n : nat) (xs : list A) :
  List.length (sliceLast n xs) = Nat.min (List.length xs) n.
Proof. unfold sliceLast. rewrite length_skipn. lia. Qed.

(** Trimming before appending does not change what the next trim keeps. *)
Lemma sliceLast_app_trimmed {A} (n : nat) (xs ys : list A) :
  sliceLast n (sliceLast n xs ++ ys) = sliceLast n (xs ++ ys).
Proof.
  unfold sliceLast.
  rewrite !skipn_app, !length_app, !length_skipn, skipn_skipn.
  destruct (Nat.le_gt_cases (List.length xs) n); f_equal; f_equal; lia.
Qed.

Lemma fold_pushEntry (es h : list HistoryEntry) :
  fold_left pushEntry es (sliceLast 100 h) = sliceLast 100 (h ++ es).
Proof.
  revert h. induction es as [| e es IH]; intros h.
  - cbn. rewrite app_nil_r. reflexivity.
  - cbn [fold_left]. unfold pushEntry at 2.
    rewrite sliceLast_app_trimmed, IH, <- app_assoc. reflexivity.
Qed.

Lemma correctAll_history (calls : list (Env * string)) (m : Machine) :
  history (snd (correctAll calls m))
  = fold_left pushEntry (recorded calls) (history m).
Proof.
  revert m. induction calls as [| [env address] rest IH]; intros m.
  - reflexivity.
  - rewrite correctAll_cons. cbn [snd recorded].
    rewrite IH, correctAddress_cases.
    destruct (answered env) as [[r cs] |]; reflexivity.
Qed.

Lemma history_from_start (calls : list (Env * string)) :
  history (snd (correctAll calls start)) = sliceLast 100 (recorded calls).
Proof.
  rewrite correctAll_history.
  change (history start) with (sliceLast 100 (@nil HistoryEntry)).
  apply fold_pushEntry.
Qed.

(** C9.  A correction that is recorded appends one entry
    [{original, corrected, timestamp}] and the history keeps the last 100
    entries of the result; a call that falls back records nothing.  After
    a run on a fresh agent the history is the last 100 of the recorded
    entries, oldest first, so its length is min(N, 100) for N recorded
    corrections; after 101 recorded entries it is the last 100 of them, and
    when they are distinct the first one is no longer in it.  [getStats]
    answers with the counters and the last 10 entries of the history. *)
Theorem history_is_bounded_fifo :
  (forall (env : Env) (address : string) (m : Machine),
      history (snd (correctAddress env address m))
      = match answered env with
        | Some (r, _) =>
            sliceLast 100
              (history m
                 ++ [mkEntry address (correctedAddress r) (now env)])%list
        | None => history m
        end)
  /\ (forall calls : list (Env * string),
         history (snd (correctAll calls start))
         = sliceLast 100 (recorded calls)
         /\ List.length (history (snd (correctAll calls start)))
            = Nat.min (List.length (recorded calls)) 100)
  /\ (forall (calls : list (Env * string)) (e : HistoryEntry)
             (rest : list HistoryEntry),
         recorded calls = e :: rest ->
         List.length rest = 100 ->
         history (snd (correctAll calls start)) = rest
         /\ (NoDup (recorded calls) ->
             ~ In e (history (snd (correctAll calls start)))))
  /\ (forall m : Machine,
         getStats m
         = (Ok (Json 200 (StatsBody (stats m) (sliceLast 10 (history m)))), m)
         /\ List.length (sliceLast 10 (history m))
            = Nat.min (List.length (history m)) 10).
Proof.
  split; [| split; [| split]].
  - intros env address m. rewrite correctAddress_cases.
    destruct (answered env) as [[r cs] |]; reflexivity.
  - intros calls. rewrite history_from_start. split; [reflexivity |].
    apply sliceLast_length.
  - intros calls e rest Hrec Hlen. rewrite history_from_start, Hrec.
    assert (sliceLast 100 (e :: rest) = rest) as ->.
    { unfold sliceLast. cbn [List.length]. rewrite Hlen. reflexivity. }
    split; [reflexivity |].
    intros Hnd. apply NoDup_cons_iff in Hnd. tauto.
  - intros m. split; [reflexivity | apply sliceLast_length].
Qed.

Lemma tally_injective (a b : nat) : tally a = tally b -> a = b.
Proof.
  revert b. induction a as [| a IH]; intros [| b] H;
    try discriminate; [reflexivity |].
  inversion H. f_equal. auto.
Qed.

Lemma recorded_tallyCalls (ns : list nat) :
  recorded (map tallyCall ns) = map tallyEntry ns.
Proof.
  induction ns as [| n ns IH]; [reflexivity |].
  cbn [map recorded tallyCall]. unfold answered. cbn. rewrite IH. reflexivity.
Qed.

Lemma NoDup_tallyEntries (ns : list nat) :
  NoDup ns -> NoDup (map tallyEntry ns).
Proof.
  induction 1 as [| n ns Hn Hnd IH]; cbn [map]; constructor; [| exact IH].
  intros Hin. apply in_map_iff in Hin. destruct Hin as (k & Hk & Hin).
  inversion Hk as [Ht]. apply tally_injective in Ht. subst k. contradiction.
Qed.

Lemma history_is_bounded_fifo_witness :
  recorded (map tallyCall (seq 0 101))
  = tallyEntry 0 :: map tallyEntry (seq 1 100)
  /\ List.length (map tallyEntry (seq 1 100)) = 100
  /\ NoDup (recorded (map tallyCall (seq 0 101)))
  /\ history (snd (correctAll (map tallyCall (seq 0 101)) start))
     = map tallyEntry (seq 1 100)
  /\ ~ In (tallyEntry 0)
         (history (snd (correctAll (map tallyCall (seq 0 101)) start))).
Proof.
  assert (recorded (map tallyCall (seq 0 101))
          = tallyEntry 0 :: map tallyEntry (seq 1 100)) as Hrec
    by (rewrite recorded_tallyCalls; reflexivity).
  assert (List.length (map tallyEntry (seq 1 100)) = 100) as Hlen
    by (rewrite length_map, length_seq; reflexivity).
  assert (NoDup (recorded (map tallyCall (seq 0 101)))) as Hnd
    by (rewrite recorded_tallyCalls; apply NoDup_tallyEntries, seq_NoDup).
  destruct (proj1 (proj2 (proj2 history_is_bounded_fifo))
              (map tallyCall (seq 0 101)) (tallyEntry 0)
              (map tallyEntry (seq 1 100)) Hrec Hlen) as [Hh Hgone].
  repeat split; auto.
Defined.

End Statistics.

(** * Properties of the search cascade *)

Section Cascade.
Import JsString Formatter Agent.
Local Open Scope agent_scope.

Lemma asked_asked (m : Machine) (us vs : list string) :
  asked (asked m us) vs = asked m (us ++ vs)%list.
Proof. unfold asked. cbn. rewrite app_assoc. reflexivity. Qed.

Lemma fetchJson_cases (env : Env) (url : string) (m : Machine) :
  fetchJson env url m
  = match geocode env url with
    | Some data => (Ok data, asked m [url])
    | None => (Throw NetworkError, asked m [url])
    end.
Proof. unfold fetchJson, asked. destruct (geocode env url); reflexivity. Qed.

(** Runs the cascade symbolically: every geocoder call is replaced by its
    two outcomes. *)
Ltac cascade_steps env :=
  repeat (rewrite ?fetchJson_cases; cbv beta iota;
          match goal with
          | |- context [match geocode env ?u with _ => _ end] =>
              let E := fresh "Hg" in destruct (geocode env u) eqn:E
          | |- context [if ?b then _ else _] =>
              let E := fresh "Hb" in destruct b eqn:E
          end);
  cbv beta iota.

(** C4.  When the primary call answers with fewer than 2 results and
    [townOnly] and [neighbourhoodOnly] are both present, the cascade issues
    exactly three geocoder calls, for the primary query, for [townOnly] and
    for [neighbourhoodOnly] in that order, and [alternativeResults] has the
    keys [town] and [neighborhood]; when the primary call answers with 2
    results or more, it issues that one call and [alternativeResults] is
    absent.  In neither case is a call made for [localGovernmentOnly], and
    the calls issued do not depend on that field at all. *)
Theorem cascade_calls :
  (forall (env : Env) (query : string) (r : CorrectionResult)
          (fa : FormattedAddress) (m : Machine) (t n : string)
          (data townData nbhData : list Place),
      alt townOnly fa = Some t -> t <> "" ->
      alt neighbourhoodOnly fa = Some n -> n <> "" ->
      geocode env (generateNominatimUrl (formattedQuery fa)) = Some data ->
      List.length data < 2 ->
      geocode env (generateNominatimUrl t) = Some townData ->
      geocode env (generateNominatimUrl n) = Some nbhData ->
      searchCascade env query r fa m
      = (Ok (Json 200
               (SearchBody query r fa data
                  (Some [("town", townData); ("neighborhood", nbhData)]))),
         asked m [generateNominatimUrl (formattedQuery fa);
                  generateNominatimUrl t; generateNominatimUrl n]))
  /\ (forall (env : Env) (query : string) (r : CorrectionResult)
             (fa : FormattedAddress) (m : Machine) (data : list Place),
         geocode env (generateNominatimUrl (formattedQuery fa)) = Some data ->
         2 <= List.length data ->
         searchCascade env query r fa m
         = (Ok (Json 200 (SearchBody query r fa data None)),
            asked m [generateNominatimUrl (formattedQuery fa)]))
  /\ (forall (env : Env) (query : string) (r : CorrectionResult)
             (fa : FormattedAddress) (m : Machine) (v : option string),
         fetched (snd (searchCascade env query r
                         (withLocalGovernmentOnly v fa) m))
         = fetched (snd (searchCascade env query r fa m))).
Proof.
  split; [| split].
  - intros env query r fa m t n data townData nbhData
      Ht Hte Hn Hne Hp Hlen Htd Hnd.
    unfold searchCascade, bind, tryAlternative.
    rewrite fetchJson_cases, Hp.
    apply Nat.ltb_lt in Hlen. rewrite Hlen.
    rewrite Ht, Hn, (truthy_Some t Hte), (truthy_Some n Hne).
    unfold bind. rewrite fetchJson_cases, Htd. cbn [ret].
    rewrite fetchJson_cases, Hnd, !asked_asked. reflexivity.
  - intros env query r fa m data Hp Hlen.
    unfold searchCascade, bind. rewrite fetchJson_cases, Hp.
    apply Nat.ltb_ge in Hlen. rewrite Hlen. reflexivity.
  - intros env query r fa m v.
    unfold searchCascade.
    replace (alt townOnly (withLocalGovernmentOnly v fa))
      with (alt townOnly fa)
      by (unfold alt; cbn; destruct (alternativeQueries fa); reflexivity).
    replace (alt neighbourhoodOnly (withLocalGovernmentOnly v fa))
      with (alt neighbourhoodOnly fa)
      by (unfold alt; cbn; destruct (alternativeQueries fa); reflexivity).
    cbn [formattedQuery withLocalGovernmentOnly].
    unfold tryAlternative, bind, ret.
    destruct (alt townOnly fa) as [t |];
      destruct (alt neighbourhoodOnly fa) as [n |];
      cascade_steps env; reflexivity.
Qed.

Lemma cascade_calls_witness :
  alt townOnly (formatAddress "Allen Avenue, GRA district, Ikeja, Lagos")
  = Some "ikeja"
  /\ alt neighbourhoodOnly
       (formatAddress "Allen Avenue, GRA district, Ikeja, Lagos")
     = Some "gra district"
  /\ List.length ["Ikeja, Lagos"] < 2
  /\ searchCascade envOnePlace "alen avenue"
       (fallback "Allen Avenue, GRA district, Ikeja, Lagos")
       (formatAddress "Allen Avenue, GRA district, Ikeja, Lagos") start
     = (Ok (Json 200
              (SearchBody "alen avenue"
                 (fallback "Allen Avenue, GRA district, Ikeja, Lagos")
                 (formatAddress "Allen Avenue, GRA district, Ikeja, Lagos")
                 ["Ikeja, Lagos"]
                 (Some [("town", ["Ikeja, Lagos"]);
                        ("neighborhood", ["Ikeja, Lagos"])]))),
        asked start
          [generateNominatimUrl
             (formattedQuery
                (formatAddress "Allen Avenue, GRA district, Ikeja, Lagos"));
           generateNominatimUrl "ikeja";
           generateNominatimUrl "gra district"]).
Proof.
  split; [vm_compute; reflexivity |].
  split; [vm_compute; reflexivity |].
  split; [cbn; lia |].
  apply (proj1 cascade_calls envOnePlace "alen avenue"
           (fallback "Allen Avenue, GRA district, Ikeja, Lagos")
           (formatAddress "Allen Avenue, GRA district, Ikeja, Lagos") start
           "ikeja" "gra district"
           ["Ikeja, Lagos"] ["Ikeja, Lagos"] ["Ikeja, Lagos"]);
    first [vm_compute; reflexivity | discriminate | cbn; lia].
Defined.

(** C8, as amended.  When the cascade answers, the primary results are
    returned under [results], and [alternativeResults] is present if and
    only if at least one fallback query was issued, whatever it found;
    its keys are among [town] and [neighborhood], and the value under each
    key is the geocoder's answer to the query for that component, which is
    in the trace after the primary call. *)
Theorem alternativeResults_present_iff_fallback_issued :
  forall (env : Env) (query : string) (r : CorrectionResult)
         (fa : FormattedAddress) (m m' : Machine) (resp : Response),
    searchCascade env query r fa m = (Ok resp, m') ->
    exists (data : list Place) (altRes : option (JsObject (list Place)))
           (extra : list string),
      resp = Json 200 (SearchBody query r fa data altRes)
      /\ geocode env (generateNominatimUrl (formattedQuery fa)) = Some data
      /\ m' = asked m (generateNominatimUrl (formattedQuery fa) :: extra)
      /\ (altRes <> None <-> extra <> [])
      /\ (extra <> [] -> List.length data < 2)
      /\ forall obj : JsObject (list Place),
          altRes = Some obj ->
          incl (keys obj) ["town"; "neighborhood"]
          /\ List.length obj = List.length extra
          /\ (forall v, In ("town", v) obj ->
                exists t, alt townOnly fa = Some t
                          /\ In (generateNominatimUrl t) extra
                          /\ geocode env (generateNominatimUrl t) = Some v)
          /\ (forall v, In ("neighborhood", v) obj ->
                exists n, alt neighbourhoodOnly fa = Some n
                          /\ In (generateNominatimUrl n) extra
                          /\ geocode env (generateNominatimUrl n) = Some v).
Proof.
  intros env query r fa m m' resp.
  unfold searchCascade, tryAlternative, bind, ret.
  destruct (alt townOnly fa) as [t |] eqn:Ht;
    destruct (alt neighbourhoodOnly fa) as [n |] eqn:Hn;
    cascade_steps env; intros H; inversion H; subst; clear H.
  all: try (cbn in *; discriminate).
  all: rewrite ?asked_asked; cbn [app]; do 3 eexists;
    (split; [reflexivity |]); (split; [reflexivity |]);
    (split; [reflexivity |]);
    (split; [split; intros; congruence |]);
    (split; [intros X; first [apply Nat.ltb_lt; assumption | congruence] |]);
    intros obj Hobj;
    first [discriminate Hobj | inversion Hobj; subst; clear Hobj];
    (split; [intros x Hx; cbn in Hx |- *; intuition |]);
    (split; [reflexivity |]);
    split; intros v Hv; cbn in Hv;
    repeat match goal with
           | H : _ \/ _ |- _ => destruct H
           | H : False |- _ => destruct H
           end;
    try congruence;
    match goal with
    | H : (_, _) = (_, _) |- _ => inversion H; subst; clear H
    end;
    eexists; (split; [reflexivity |]); (split; [cbn; auto | assumption]).
Qed.

Lemma alternativeResults_present_iff_fallback_issued_witness :
  searchCascade envOnePlace "ikeja"
    (fallback "Allen Avenue, Ikeja") (formatAddress "Allen Avenue, Ikeja")
    start
  = (Ok (Json 200
           (SearchBody "ikeja" (fallback "Allen Avenue, Ikeja")
              (formatAddress "Allen Avenue, Ikeja") ["Ikeja, Lagos"]
              (Some [("town", ["Ikeja, Lagos"])]))),
     asked start [generateNominatimUrl "allen avenue, ikeja";
                  generateNominatimUrl "ikeja"])
  /\ exists (data : list Place) (altRes : option (JsObject (list Place)))
            (extra : list string),
      Json 200
        (SearchBody "ikeja" (fallback "Allen Avenue, Ikeja")
           (formatAddress "Allen Avenue, Ikeja") ["Ikeja, Lagos"]
           (Some [("town", ["Ikeja, Lagos"])]))
      = Json 200
          (SearchBody "ikeja" (fallback "Allen Avenue, Ikeja")
             (formatAddress "Allen Avenue, Ikeja") data altRes)
      /\ (altRes <> None <-> extra <> []).
Proof.
  assert (searchCascade envOnePlace "ikeja"
            (fallback "Allen Avenue, Ikeja")
            (formatAddress "Allen Avenue, Ikeja") start
          = (Ok (Json 200
                   (SearchBody "ikeja" (fallback "Allen Avenue, Ikeja")
                      (formatAddress "Allen Avenue, Ikeja") ["Ikeja, Lagos"]
                      (Some [("town", ["Ikeja, Lagos"])]))),
             asked start [generateNominatimUrl "allen avenue, ikeja";
                          generateNominatimUrl "ikeja"])) as H
    by (vm_compute; reflexivity).
  split; [exact H |].
  destruct (alternativeResults_present_iff_fallback_issued _ _ _ _ _ _ _ H)
    as (data & altRes & extra & Hr & _ & _ & Hiff & _).
  exists data, altRes, extra. split; [exact Hr | exact Hiff].
Defined.

(** Counterexample to C8 as stated: the primary query and the [townOnly] query both
    find nothing, no other fallback is issued, and yet
    [alternativeResults] is present, with an empty list under [town]. *)
Lemma empty_fallback_result_is_reported :
  searchCascade envNoPlace "ikeja"
    (fallback "Allen Avenue, Ikeja") (formatAddress "Allen Avenue, Ikeja")
    start
  = (Ok (Json 200
           (SearchBody "ikeja" (fallback "Allen Avenue, Ikeja")
              (formatAddress "Allen Avenue, Ikeja") []
              (Some [("town", [])]))),
     asked start [generateNominatimUrl "allen avenue, ikeja";
                  generateNominatimUrl "ikeja"])
  /\ (forall url : string, geocode envNoPlace url = Some [])
  /\ ~ (forall (env : Env) (query : string) (r : CorrectionResult)
               (fa : FormattedAddress) (m m' : Machine) (data : list Place)
               (altRes : option (JsObject (list Place))),
           searchCascade env query r fa m
           = (Ok (Json 200 (SearchBody query r fa data altRes)), m') ->
           (altRes <> None <->
            exists (url : string) (found : list Place),
              In url (skipn (S (List.length (fetched m))) (fetched m'))
              /\ geocode env url = Some found /\ found <> [])).
Proof.
  assert (searchCascade envNoPlace "ikeja"
            (fallback "Allen Avenue, Ikeja")
            (formatAddress "Allen Avenue, Ikeja") start
          = (Ok (Json 200
                   (SearchBody "ikeja" (fallback "Allen Avenue, Ikeja")
                      (formatAddress "Allen Avenue, Ikeja") []
                      (Some [("town", [])]))),
             asked start [generateNominatimUrl "allen avenue, ikeja";
                          generateNominatimUrl "ikeja"])) as H
    by (vm_compute; reflexivity).
  split; [exact H | split; [reflexivity |]].
  intros Claim. apply Claim in H. destruct H as [H _].
  destruct H as (url & found & _ & Hg & Hne); [discriminate |].
  cbn in Hg. congruence.
Qed.

End Cascade.

(** * The counter that no operation touches *)

Section MissingComponents.
Import Agent.
Local Open Scope agent_scope.

Lemma keeps_ret {A} (a : A) : keeps (ret a).
Proof. intros m. reflexivity. Qed.

Lemma keeps_throw {A} (e : exn) : keeps (@throw A e).
Proof. intros m. reflexivity. Qed.

Lemma keeps_bind {A B} (c : M A) (k : A -> M B) :
  keeps c -> (forall a, keeps (k a)) -> keeps (bind c k).
Proof.
  intros Hc Hk m. unfold bind. specialize (Hc m).
  destruct (c m) as [[a | e] m1]; cbn [snd] in *.
  - rewrite Hk. exact Hc.
  - exact Hc.
Qed.

Lemma keeps_tryCatch {A} (c : M A) (h : exn -> M A) :
  keeps c -> (forall e, keeps (h e)) -> keeps (tryCatch c h).
Proof.
  intros Hc Hh m. unfold tryCatch. specialize (Hc m).
  destruct (c m) as [[a | e] m1]; cbn [snd] in *.
  - exact Hc.
  - rewrite Hh. exact Hc.
Qed.

Lemma keeps_getState : keeps getState.
Proof. intros m. reflexivity. Qed.

Lemma keeps_fetchJson (env : Env) (url : string) : keeps (fetchJson env url).
Proof.
  intros m. rewrite fetchJson_cases. destruct (geocode env url); reflexivity.
Qed.

Lemma keeps_correctAddress (env : Env) (address : string) :
  keeps (correctAddress env address).
Proof.
  intros m. rewrite correctAddress_cases.
  destruct (answered env) as [[r cs] |]; reflexivity.
Qed.

Create HintDb keeps.
#[local] Hint Resolve keeps_ret keeps_throw keeps_bind keeps_tryCatch
  keeps_getState keeps_fetchJson keeps_correctAddress : keeps.
#[local] Hint Extern 3 (keeps (if ?b then _ else _)) => destruct b : keeps.
#[local] Hint Extern 3 (keeps (match ?x with _ => _ end)) => destruct x : keeps.

Lemma keeps_onRequest (env : Env) (request : Request) :
  keeps (onRequest env request).
Proof.
  unfold onRequest, handleFormatAddress, handleSearch, getStats,
    searchCascade, tryAlternative, formatCorrected.
  auto 20 with keeps.
Qed.

Lemma step_keeps (m : Machine) (ec : Env * Call) :
  missingComponentsAdded (stats (step m ec))
  = missingComponentsAdded (stats m).
Proof.
  destruct ec as [env [address | address | request]]; cbn [step].
  - apply keeps_correctAddress.
  - reflexivity.
  - apply keeps_onRequest.
Qed.

(** C10.  [init()] sets [missingComponentsAdded] to 0, no call of
    [correctAddress], [formatAddress] or a request handler (format-address,
    search, stats, any other route) changes it, and so it is 0 after every
    sequence of such calls on a fresh agent. *)
Theorem missingComponentsAdded_stays_zero :
  missingComponentsAdded (correctionStats init) = 0
  /\ (forall (m : Machine) (ec : Env * Call),
         missingComponentsAdded (stats (step m ec))
         = missingComponentsAdded (stats m))
  /\ forall calls : list (Env * Call),
      missingComponentsAdded (stats (run calls start)) = 0.
Proof.
  split; [reflexivity | split; [exact step_keeps |]].
  intros calls. unfold run.
  assert (forall m, missingComponentsAdded (stats (fold_left step calls m))
                    = missingComponentsAdded (stats m)) as H.
  { induction calls as [| ec calls IH]; intros m; [reflexivity |].
    cbn [fold_left]. rewrite IH. apply step_keeps. }
  rewrite H. reflexivity.
Qed.

End MissingComponents.

(** * Further properties of the decomposition *)

Section Segments.
Import JsString Regex Formatter.

Lemma allChars_app (P : ascii -> bool) (a b : string) :
  allChars P (a ++ b) = allChars P a && allChars P b.
Proof.
  induction a as [| c a IH]; cbn; [reflexivity |].
  rewrite IH, andb_assoc. reflexivity.
Qed.

(** A global replace only keeps characters of its input and writes copies
    of the replacement. *)
Lemma replaceFrom_chars (P : ascii -> bool) (r : regex) (repl : string) :
  allChars P repl = true ->
  forall (s : string) (prev : option ascii) (skip : nat),
    allChars P s = true ->
    allChars P (replaceFrom r repl prev skip s) = true.
Proof.
  intros Hrepl. induction s as [| c s IH]; intros prev skip Hs.
  - cbn. destruct skip; [destruct (exec r prev "") |]; auto.
  - cbn in Hs. apply andb_prop in Hs. destruct Hs as [Hc Hs].
    cbn [replaceFrom]. destruct skip as [| n]; [| apply IH, Hs].
    destruct (exec r prev (String c s)) as [rest |].
    + destruct (String.length (String c s) - String.length rest);
        rewrite allChars_app, Hrepl; cbn [allChars andb]; rewrite ?Hc;
        cbn [andb]; apply IH, Hs.
    + cbn [allChars]. rewrite Hc. apply IH, Hs.
Qed.

Lemma replaceAll_chars (P : ascii -> bool) (r : regex) (repl s : string) :
  allChars P repl = true -> allChars P s = true ->
  allChars P (replaceAll r repl s) = true.
Proof. intros Hr Hs. apply replaceFrom_chars; assumption. Qed.

Lemma trimStart_chars (P : ascii -> bool) (s : string) :
  allChars P s = true -> allChars P (trimStart s) = true.
Proof.
  induction s as [| c s IH]; intros H; [reflexivity |].
  cbn [trimStart]. destruct (isSpace c); [| exact H].
  cbn in H. apply andb_prop in H. tauto.
Qed.

Lemma trimEnd_chars (P : ascii -> bool) (s : string) :
  allChars P s = true -> allChars P (trimEnd s) = true.
Proof.
  induction s as [| c s IH]; intros H; [reflexivity |].
  cbn in H. apply andb_prop in H. destruct H as [Hc Hs].
  cbn [trimEnd]. specialize (IH Hs).
  destruct (trimEnd s) as [| d t].
  - destruct (isSpace c); cbn; rewrite ?Hc; reflexivity.
  - cbn [allChars]. rewrite Hc. exact IH.
Qed.

Lemma trim_chars (P : ascii -> bool) (s : string) :
  allChars P s = true -> allChars P (trim s) = true.
Proof. intros H. apply trimEnd_chars, trimStart_chars, H. Qed.

Lemma splitAcc_chars (P sep : ascii -> bool) (s cur : string) :
  allChars P cur = true -> allChars P s = true ->
  Forall (fun x => allChars P x = true) (splitAcc sep cur s).
Proof.
  revert cur. induction s as [| c s IH]; intros cur Hcur Hs.
  - cbn. constructor; [exact Hcur | constructor].
  - cbn in Hs. apply andb_prop in Hs. destruct Hs as [Hc Hs].
    cbn [splitAcc]. destruct (sep c).
    + constructor; [exact Hcur | apply IH; [reflexivity | exact Hs]].
    + apply IH; [| exact Hs].
      rewrite allChars_app, Hcur. cbn. rewrite Hc. reflexivity.
Qed.

(** No segment of a split contains a separator. *)
Lemma splitAcc_no_separator (sep : ascii -> bool) (s cur : string) :
  allChars (fun c => negb (sep c)) cur = true ->
  Forall (fun x => allChars (fun c => negb (sep c)) x = true)
    (splitAcc sep cur s).
Proof.
  revert cur. induction s as [| c s IH]; intros cur Hcur.
  - cbn. constructor; [exact Hcur | constructor].
  - cbn [splitAcc]. destruct (sep c) eqn:E.
    + constructor; [exact Hcur | apply IH; reflexivity].
    + apply IH. rewrite allChars_app, Hcur. cbn. rewrite E. reflexivity.
Qed.

Lemma lowerChar_idempotent (c : ascii) : lowerChar (lowerChar c) = lowerChar c.
Proof.
  destruct c as [b0 b1 b2 b3 b4 b5 b6 b7];
    destruct b0, b1, b2, b3, b4, b5, b6, b7; reflexivity.
Qed.

Lemma toLowerCase_idempotent (s : string) :
  toLowerCase (toLowerCase s) = toLowerCase s.
Proof.
  induction s as [| c s IH]; cbn; [reflexivity |].
  rewrite lowerChar_idempotent, IH. reflexivity.
Qed.

Lemma toLowerCase_fixed (s : string) :
  allChars (fun c => Ascii.eqb (lowerChar c) c) s = true ->
  toLowerCase s = s.
Proof.
  induction s as [| c s IH]; cbn; [reflexivity |].
  intros H. apply andb_prop in H. destruct H as [Hc Hs].
  apply Ascii.eqb_eq in Hc. rewrite Hc, (IH Hs). reflexivity.
Qed.

Lemma toLowerCase_chars (s : string) :
  allChars (fun c => Ascii.eqb (lowerChar c) c) (toLowerCase s) = true.
Proof.
  induction s as [| c s IH]; cbn; [reflexivity |].
  rewrite lowerChar_idempotent, Ascii.eqb_refl. exact IH.
Qed.

(** What holds of a space and of every character of the lower-cased
    address holds of every character of every segment. *)
Lemma addressParts_chars (P : ascii -> bool) (address : string) :
  P " "%char = true ->
  allChars P (toLowerCase address) = true ->
  Forall (fun x => allChars P x = true) (addressParts address).
Proof.
  intros Hsp Hlow.
  assert (allChars P " " = true) as Hsp' by (cbn; rewrite Hsp; reflexivity).
  unfold addressParts, splitParts, stripDescriptives, cleanAddress.
  apply Forall_forall. intros x Hx.
  apply filter_In in Hx. destruct Hx as [Hx _].
  apply in_map_iff in Hx. destruct Hx as (y & <- & Hy).
  apply trim_chars.
  match type of Hy with
  | In y (split ?sep ?w) =>
      assert (Forall (fun x => allChars P x = true) (split sep w)) as HF
  end.
  { apply splitAcc_chars; [reflexivity |].
    repeat first [apply trim_chars | apply replaceAll_chars];
      first [exact Hlow | exact Hsp' | reflexivity]. }
  rewrite Forall_forall in HF. exact (HF y Hy).
Qed.

Lemma component_is_segment (address part : string) :
  In part (assigned (components (formatAddress address))) ->
  In part (addressParts address).
Proof.
  intros H. unfold formatAddress in H.
  exact (formatParts_assigned_incl _ (addressParts_nonempty address) _ H).
Qed.

(** X1.  The decomposition invents no character: a property that holds of
    the space and of every character of the lower-cased input holds of
    every character of every component of [formatAddress]. *)
Theorem components_keep_input_characters :
  forall (P : ascii -> bool) (address part : string),
    P " "%char = true ->
    allChars P (toLowerCase address) = true ->
    In part (assigned (components (formatAddress address))) ->
    allChars P part = true.
Proof.
  intros P address part Hsp Hlow Hin.
  apply component_is_segment in Hin.
  pose proof (addressParts_chars P address Hsp Hlow) as HF.
  rewrite Forall_forall in HF. exact (HF part Hin).
Qed.

Lemma components_keep_input_characters_witness :
  negb (isDigit " "%char) = true
  /\ allChars (fun c => negb (isDigit c))
       (toLowerCase "Allen Avenue, Ikeja") = true
  /\ In "ikeja" (assigned (components (formatAddress "Allen Avenue, Ikeja")))
  /\ allChars (fun c => negb (isDigit c)) "ikeja" = true.
Proof.
  assert (In "ikeja"
            (assigned (components (formatAddress "Allen Avenue, Ikeja"))))
    as Hin by (vm_compute; auto).
  split; [vm_compute; reflexivity |].
  split; [vm_compute; reflexivity |].
  split; [exact Hin |].
  apply (components_keep_input_characters (fun c => negb (isDigit c))
           "Allen Avenue, Ikeja" "ikeja");
    [vm_compute; reflexivity | vm_compute; reflexivity | exact Hin].
Defined.

(** X2.  Every component of [formatAddress] is in lower case, whatever the
    case of the input: [toLowerCase] leaves it unchanged. *)
Theorem components_are_lower_case :
  forall address part : string,
    In part (assigned (components (formatAddress address))) ->
    toLowerCase part = part.
Proof.
  intros address part Hin. apply toLowerCase_fixed.
  apply component_is_segment in Hin.
  pose proof (addressParts_chars (fun c => Ascii.eqb (lowerChar c) c) address
                eq_refl (toLowerCase_chars address)) as HF.
  rewrite Forall_forall in HF. exact (HF part Hin).
Qed.

Lemma components_are_lower_case_witness :
  In "gra district"
    (assigned (components (formatAddress "ALLEN Avenue, GRA District")))
  /\ toLowerCase "gra district" = "gra district".
Proof.
  assert (In "gra district"
            (assigned
               (components (formatAddress "ALLEN Avenue, GRA District"))))
    as Hin by (vm_compute; auto).
  split; [exact Hin |].
  exact (components_are_lower_case "ALLEN Avenue, GRA District"
           "gra district" Hin).
Defined.

(** *** Trimmed segments *)

Lemma trimStart_startsClean (s : string) : startsClean (trimStart s).
Proof.
  induction s as [| c s IH]; cbn; [exact I |].
  destruct (isSpace c) eqn:E; [exact IH | exact E].
Qed.

Lemma trimStart_fixed (s : string) : startsClean s -> trimStart s = s.
Proof. destruct s as [| c s]; cbn; [reflexivity |]. intros ->. reflexivity. Qed.

Lemma trimEnd_startsClean (s : string) :
  startsClean s -> startsClean (trimEnd s).
Proof.
  destruct s as [| c s]; cbn; [auto |]. intros E.
  destruct (trimEnd s); [rewrite E |]; exact E.
Qed.

Lemma trimEnd_idempotent (s : string) : trimEnd (trimEnd s) = trimEnd s.
Proof.
  induction s as [| c s IH]; [reflexivity |].
  cbn [trimEnd]. destruct (trimEnd s) as [| d t] eqn:E.
  - destruct (isSpace c) eqn:Ec; [reflexivity |].
    cbn. rewrite Ec. reflexivity.
  - cbn [trimEnd] in IH |- *. rewrite IH. reflexivity.
Qed.

Lemma trim_idempotent (s : string) : trim (trim s) = trim s.
Proof.
  unfold trim.
  rewrite (trimStart_fixed (trimEnd (trimStart s))).
  - apply trimEnd_idempotent.
  - apply trimEnd_startsClean, trimStart_startsClean.
Qed.

(** X3.  Every component of [formatAddress] is a clean segment: it is not
    empty, it has no white space at either end, and it contains no comma,
    slash or backslash. *)
Theorem components_are_clean_segments :
  forall address part : string,
    In part (assigned (components (formatAddress address))) ->
    part <> ""
    /\ trim part = part
    /\ allChars (fun c => negb (isSeparator c)) part = true.
Proof.
  intros address part Hin. apply component_is_segment in Hin.
  split; [| split].
  - pose proof (addressParts_nonempty address) as H.
    rewrite Forall_forall in H. exact (H part Hin).
  - unfold addressParts, splitParts in Hin.
    apply filter_In in Hin. destruct Hin as [Hin _].
    apply in_map_iff in Hin. destruct Hin as (y & <- & _).
    apply trim_idempotent.
  - unfold addressParts, splitParts in Hin.
    apply filter_In in Hin. destruct Hin as [Hin _].
    apply in_map_iff in Hin. destruct Hin as (y & <- & Hy).
    apply trim_chars.
    pose proof (splitAcc_no_separator isSeparator
                  (stripDescriptives (cleanAddress address)) ""
                  eq_refl) as HF.
    rewrite Forall_forall in HF. exact (HF y Hy).
Qed.

Lemma components_are_clean_segments_witness :
  In "victoria island area"
    (assigned
       (components
          (formatAddress "12 Adeola Odeku St /  Victoria Island area \ Lagos")))
  /\ trim "victoria island area" = "victoria island area".
Proof.
  assert (In "victoria island area"
            (assigned
               (components
                  (formatAddress
                     "12 Adeola Odeku St /  Victoria Island area \ Lagos"))))
    as Hin by (vm_compute; auto).
  split; [exact Hin |].
  exact (proj1 (proj2 (components_are_clean_segments _ _ Hin))).
Defined.

(** *** Collapsed white space *)

Lemma star_spaces (prev : option ascii) (s : string) :
  star isSpace (fun _ rest => Some rest) prev s = Some (dropSpaces s).
Proof.
  revert prev. induction s as [| c s IH]; intros prev; [reflexivity |].
  cbn [star dropSpaces]. destruct (isSpace c); [| reflexivity].
  rewrite IH. reflexivity.
Qed.

Lemma exec_reSpaces (prev : option ascii) (s : string) :
  exec reSpaces prev s
  = match s with
    | String c s' => if isSpace c then Some (dropSpaces s') else None
    | EmptyString => None
    end.
Proof.
  destruct s as [| c s]; [reflexivity |].
  unfold exec, reSpaces. cbn [run].
  destruct (isSpace c); [apply star_spaces | reflexivity].
Qed.

Lemma spaceRun_dropSpaces (s : string) :
  String.length s = spaceRun s + String.length (dropSpaces s).
Proof.
  induction s as [| c s IH]; [reflexivity |].
  cbn [spaceRun dropSpaces]. destruct (isSpace c); cbn; lia.
Qed.

(** The global replace of [/\s+/g] by one space, at a position outside a
    match and at a position inside the run it is dropping. *)
Lemma replace_spaces_squeeze (s : string) :
  (forall prev, replaceFrom reSpaces " " prev 0 s = squeeze false s)
  /\ (forall prev, replaceFrom reSpaces " " prev (spaceRun s) s
                   = squeeze true s).
Proof.
  induction s as [| c s [IH0 IHrun]].
  - split; intros prev; reflexivity.
  - assert (forall prev,
               replaceFrom reSpaces " " prev 0 (String c s)
               = squeeze false (String c s)) as H0.
    { intros prev. cbn [replaceFrom squeeze]. rewrite exec_reSpaces.
      destruct (isSpace c) eqn:Ec.
      - replace (String.length (String c s) - String.length (dropSpaces s))
          with (S (spaceRun s))
          by (cbn [String.length]; rewrite (spaceRun_dropSpaces s); lia).
        cbn [append]. rewrite IHrun. reflexivity.
      - rewrite IH0. reflexivity. }
    split; [exact H0 |].
    intros prev. cbn [spaceRun]. destruct (isSpace c) eqn:Ec.
    + cbn [replaceFrom squeeze]. rewrite Ec. apply IHrun.
    + rewrite H0. cbn [squeeze]. rewrite Ec. reflexivity.
Qed.

Lemma squeeze_singleSpaced (s : string) (inRun : bool) :
  singleSpaced (squeeze inRun s) = true
  /\ (inRun = true -> startsWithSpace (squeeze inRun s) = false).
Proof.
  revert inRun. induction s as [| c s IH]; intros inRun.
  - split; reflexivity.
  - cbn [squeeze]. destruct (isSpace c) eqn:Ec.
    + destruct inRun.
      * apply IH.
      * destruct (IH true) as [Hs Hn]. split; [| discriminate].
        cbn [singleSpaced]. rewrite Hs, (Hn eq_refl). reflexivity.
    + destruct (IH false) as [Hs _]. split.
      * cbn [singleSpaced]. rewrite Ec, Hs. reflexivity.
      * intros _. cbn. exact Ec.
Qed.

Lemma singleSpaced_tail (c : ascii) (s : string) :
  singleSpaced (String c s) = true -> singleSpaced s = true.
Proof. cbn. intros H. apply andb_prop in H. tauto. Qed.

Lemma singleSpaced_app (a b : string) :
  singleSpaced (a ++ b) = true ->
  singleSpaced a = true /\ singleSpaced b = true.
Proof.
  induction a as [| c a IH]; cbn [append]; intros H; [split; auto |].
  pose proof (singleSpaced_tail _ _ H) as Ht.
  destruct (IH Ht) as [Ha Hb]. split; [| exact Hb].
  cbn [singleSpaced] in H |- *. rewrite Ha, andb_true_r.
  apply andb_prop in H. destruct H as [H _].
  destruct (isSpace c); [| reflexivity].
  apply andb_prop in H. destruct H as [Hc Hn]. rewrite Hc. cbn [andb].
  destruct a as [| d a]; [reflexivity | exact Hn].
Qed.

Lemma trimStart_singleSpaced (s : string) :
  singleSpaced s = true -> singleSpaced (trimStart s) = true.
Proof.
  induction s as [| c s IH]; intros H; [reflexivity |].
  cbn [trimStart]. destruct (isSpace c); [| exact H].
  apply IH, (singleSpaced_tail _ _ H).
Qed.

Lemma trimEnd_prefix (s : string) : exists t, s = (trimEnd s ++ t)%string.
Proof.
  induction s as [| c s [t IH]]; [exists EmptyString; reflexivity |].
  cbn [trimEnd]. destruct (trimEnd s) as [| d u] eqn:E.
  - destruct (isSpace c).
    + exists (String c s). reflexivity.
    + exists s. reflexivity.
  - exists t. cbn [append]. f_equal. exact IH.
Qed.

Lemma trim_singleSpaced (s : string) :
  singleSpaced s = true -> singleSpaced (trim s) = true.
Proof.
  intros H. unfold trim. apply trimStart_singleSpaced in H.
  destruct (trimEnd_prefix (trimStart s)) as [t Ht].
  rewrite Ht in H. apply singleSpaced_app in H. tauto.
Qed.

Lemma splitAcc_singleSpaced (sep : ascii -> bool) (s cur : string) :
  singleSpaced (cur ++ s) = true ->
  Forall (fun x => singleSpaced x = true) (splitAcc sep cur s).
Proof.
  revert cur. induction s as [| c s IH]; intros cur H.
  - cbn. constructor; [| constructor].
    apply singleSpaced_app in H. tauto.
  - cbn [splitAcc]. destruct (sep c).
    + apply singleSpaced_app in H. destruct H as [Hcur Hs].
      constructor; [exact Hcur |].
      apply IH. cbn [append]. exact (singleSpaced_tail _ _ Hs).
    + apply IH.
      replace ((cur ++ String c EmptyString) ++ s)%string
        with (cur ++ String c s)%string; [exact H |].
      clear. induction cur as [| d cur IHc]; cbn; [reflexivity |].
      rewrite IHc. reflexivity.
Qed.

(** X22.  White space is normalised in every component of
    [formatAddress]: the only white-space character a component contains
    is the space, and never two in a row, whatever tabs, line breaks or
    runs of blanks the input had. *)
Theorem components_are_single_spaced :
  forall address part : string,
    In part (assigned (components (formatAddress address))) ->
    singleSpaced part = true.
Proof.
  intros address part Hin. apply component_is_segment in Hin.
  unfold addressParts, splitParts in Hin.
  apply filter_In in Hin. destruct Hin as [Hin _].
  apply in_map_iff in Hin. destruct Hin as (y & <- & Hy).
  apply trim_singleSpaced.
  assert (singleSpaced (stripDescriptives (cleanAddress address)) = true)
    as Hs.
  { unfold stripDescriptives. apply trim_singleSpaced.
    unfold replaceAll. rewrite (proj1 (replace_spaces_squeeze _)).
    apply squeeze_singleSpaced. }
  pose proof (splitAcc_singleSpaced isSeparator
                (stripDescriptives (cleanAddress address)) "" Hs) as HF.
  rewrite Forall_forall in HF. exact (HF y Hy).
Qed.

Lemma components_are_single_spaced_witness :
  In "allen avenue"
    (assigned
       (components
          (formatAddress (String (ascii_of_nat 9) "Allen    Avenue ,Ikeja"))))
  /\ singleSpaced "allen avenue" = true.
Proof.
  assert (In "allen avenue"
            (assigned
               (components
                  (formatAddress
                     (String (ascii_of_nat 9) "Allen    Avenue ,Ikeja")))))
    as Hin by (vm_compute; auto).
  split; [exact Hin |].
  exact (components_are_single_spaced _ _ Hin).
Defined.

Ltac segment_cases parts H :=
  destruct parts as [| p0 [| p1 [| p2 [| p3 [| p4 rest]]]]];
  repeat match goal with
         | Hf : Forall _ (?p :: _) |- _ =>
             apply Forall_cons_iff in Hf;
             let Hx := fresh "Hne" in
             destruct Hf as [Hx Hf];
             destruct p as [| ? ?]; [exfalso; apply Hx; reflexivity | clear Hx]
         end;
  cbv beta delta [formatParts assignComponents].

Ltac keyword_split :=
  try match goal with
      | |- context [hasNeighbourhoodKeyword ?p] =>
          destruct (hasNeighbourhoodKeyword p)
      end.

(** X4.  The alternative queries repeat the components: for every input
    [alternativeQueries] is present, and its [neighbourhoodOnly],
    [townOnly] and [localGovernmentOnly] are the neighbourhood, the town
    and the local government of the struct, absent when these are. *)
Theorem alternativeQueries_repeat_components :
  forall address : string,
    alternativeQueries (formatAddress address)
    = Some (mkAlternativeQueries
              (neighbourhood (formatAddress address))
              (town (formatAddress address))
              (localGovernment (formatAddress address))).
Proof.
  intros address. unfold formatAddress.
  pose proof (addressParts_nonempty address) as H.
  generalize dependent (addressParts address). intros parts H.
  segment_cases parts H; keyword_split; vm_compute; reflexivity.
Qed.

(** X5.  Only the first five segments count: the result of
    [formatAddress] is the one for the first five segments of its input,
    whatever follows them. *)
Theorem segments_after_the_fifth_are_ignored :
  forall address : string,
    formatAddress address = formatParts (firstn 5 (addressParts address)).
Proof.
  intros address. unfold formatAddress.
  destruct (addressParts address) as [| p0 [| p1 [| p2 [| p3 [| p4 rest]]]]];
    reflexivity.
Qed.

Lemma formatParts_street (parts : list string) :
  Forall (fun part => part <> "") parts ->
  street (formatParts parts) = nth_error parts 0.
Proof.
  intros H. segment_cases parts H; keyword_split; vm_compute; reflexivity.
Qed.

(** X6.  On an address whose second segment has no neighbourhood keyword
    the town is segment 1 and the local government and the state are read
    from segments 3 and 4: segment 2 reaches no component, because the
    tests of lines 169 and 175 on an unset town or local government never
    succeed. *)
Theorem plain_address_positions :
  forall address : string,
    hasNeighbourhoodKeyword (nth 1 (addressParts address) "") = false ->
    street (formatAddress address) = nth_error (addressParts address) 0
    /\ neighbourhood (formatAddress address) = None
    /\ town (formatAddress address) = nth_error (addressParts address) 1
    /\ localGovernment (formatAddress address)
       = nth_error (addressParts address) 3
    /\ state (formatAddress address) = nth_error (addressParts address) 4.
Proof.
  intros address K. unfold formatAddress.
  pose proof (addressParts_nonempty address) as H.
  destruct (formatParts_no_keyword _ H K) as (Hn & Ht & Hl & Hs).
  repeat split; try assumption.
  apply formatParts_street, H.
Qed.

Lemma plain_address_positions_witness :
  hasNeighbourhoodKeyword
    (nth 1 (addressParts "5 Marina Rd, Lagos Island, Lagos, Nigeria, Africa")
       "") = false
  /\ localGovernment
       (formatAddress "5 Marina Rd, Lagos Island, Lagos, Nigeria, Africa")
     = nth_error
         (addressParts "5 Marina Rd, Lagos Island, Lagos, Nigeria, Africa") 3.
Proof.
  split; [vm_compute; reflexivity |].
  apply (plain_address_positions
           "5 Marina Rd, Lagos Island, Lagos, Nigeria, Africa").
  vm_compute; reflexivity.
Defined.

End Segments.

(** * Properties of the geocoder URL *)

Section Url.
Import JsString Formatter Agent.

Lemma string_length_append (a b : string) :
  String.length (a ++ b) = String.length a + String.length b.
Proof. induction a as [| c a IH]; cbn; [reflexivity | rewrite IH; reflexivity]. Qed.

Lemma append_inv_head (p a b : string) : (p ++ a = p ++ b)%string -> a = b.
Proof.
  induction p as [| c p IH]; cbn; intros H; [exact H |].
  injection H as H. exact (IH H).
Qed.

Lemma append_inv_tail (s a b : string) : (a ++ s = b ++ s)%string -> a = b.
Proof.
  revert b. induction a as [| c a IH]; intros [| d b] H; cbn in H.
  - reflexivity.
  - apply (f_equal String.length) in H. cbn in H.
    rewrite string_length_append in H. lia.
  - apply (f_equal String.length) in H. cbn in H.
    rewrite string_length_append in H. lia.
  - injection H as Hc H. subst d. f_equal. exact (IH b H).
Qed.

Ltac every_char c :=
  destruct c as [b0 b1 b2 b3 b4 b5 b6 b7];
  destruct b0, b1, b2, b3, b4, b5, b6, b7.

Lemma encodeChar_chars (c : ascii) : allChars isQueryChar (encodeChar c) = true.
Proof. every_char c; reflexivity. Qed.



Lemma decodeChar_encodeChar (c : ascii) (rest : string) :
  decodeChar (encodeChar c ++ rest) = Some (c, rest).
Proof. every_char c; reflexivity. Qed.

Lemma encodeURIComponent_injective (a b : string) :
  encodeURIComponent a = encodeURIComponent b -> a = b.
Proof.
  revert b. induction a as [| c a IH]; intros [| d b] H; cbn in H.
  - reflexivity.
  - apply (f_equal decodeChar) in H.
    rewrite decodeChar_encodeChar in H. discriminate H.
  - apply (f_equal decodeChar) in H.
    rewrite decodeChar_encodeChar in H. discriminate H.
  - apply (f_equal decodeChar) in H.
    rewrite !decodeChar_encodeChar in H. injection H as Hc H.
    subst d. f_equal. exact (IH b H).
Qed.

(** X7.  An encoded query is made of letters, digits, the marks
    [- _ . ! ~ * ' ( )] and the percent sign only: it contains no
    ampersand, equals sign, question mark, hash, slash, plus or space, so
    the text of a query cannot add or end a parameter of the URL. *)
Theorem encoded_query_alphabet :
  forall q : string,
    allChars isQueryChar (encodeURIComponent q) = true
    /\ forall c : ascii,
        In c ["&"; "="; "?"; "#"; "/"; "+"; " "]%char ->
        allChars (fun x => negb (Ascii.eqb x c)) (encodeURIComponent q) = true.
Proof.
  intros q.
  assert (allChars isQueryChar (encodeURIComponent q) = true) as H.
  { induction q as [| c q IH]; cbn; [reflexivity |].
    rewrite allChars_app, encodeChar_chars, IH. reflexivity. }
  split; [exact H |].
  intros c Hc.
  assert (isQueryChar c = false) as Hq.
  { cbn in Hc. repeat destruct Hc as [<- | Hc]; try reflexivity.
    contradiction. }
  clear Hc. induction (encodeURIComponent q) as [| x s IH]; [reflexivity |].
  cbn in H |- *. apply andb_prop in H. destruct H as [Hx Hs].
  rewrite (IH Hs), andb_true_r.
  destruct (Ascii.eqb_spec x c) as [-> |]; [congruence | reflexivity].
Qed.

(** X8.  Different queries give different URLs: [generateNominatimUrl],
    and with it [encodeURIComponent], is injective, so the geocoder can
    tell every query apart. *)
Theorem generateNominatimUrl_injective :
  forall a b : string,
    generateNominatimUrl a = generateNominatimUrl b -> a = b.
Proof.
  intros a b H. unfold generateNominatimUrl in H.
  apply append_inv_head, append_inv_tail in H.
  apply encodeURIComponent_injective, H.
Qed.

Lemma generateNominatimUrl_injective_witness :
  generateNominatimUrl "ikeja" = generateNominatimUrl "ikeja"
  /\ "ikeja" = "ikeja".
Proof.
  split; [reflexivity |].
  apply (generateNominatimUrl_injective "ikeja" "ikeja"). reflexivity.
Defined.



End Url.

(** * Further properties of the handlers *)

Section Handlers.
Import JsString Formatter Agent.
Local Open Scope agent_scope.

(** *** The handlers, case by case *)

Lemma handleSearch_cases (env : Env) (request : Request) (m : Machine) :
  handleSearch env request m
  = if negb (truthy (q request)) then
      (Ok (Json 400 (ErrorBody "Query parameter is required")), m)
    else
      let query := match q request with Some x => x | None => "" end in
      match correctAddress env query m with
      | (Ok r, m1) =>
          match correctedAddress r with
          | Some a =>
              match searchCascade env query r (formatAddress a) m1 with
              | (Ok resp, m2) => (Ok resp, m2)
              | (Throw _, m2) =>
                  (Ok (Json 500 (ErrorBody "Failed to fetch from Nominatim")),
                   m2)
              end
          | None => (Throw TypeError, m1)
          end
      | (Throw e, m1) => (Throw e, m1)
      end.
Proof.
  unfold handleSearch. destruct (negb (truthy (q request))); [reflexivity |].
  cbv zeta. unfold bind at 1.
  destruct (correctAddress env _ m) as [[r | e] m1]; [| reflexivity].
  unfold bind, formatCorrected, tryCatch, ret, throw.
  destruct (correctedAddress r) as [a |]; reflexivity.
Qed.

Lemma handleFormatAddress_cases (env : Env) (request : Request) (m : Machine) :
  handleFormatAddress env request m
  = match payload request with
    | Unreadable => (Ok (Json 500 (ErrorBody "Failed to process address")), m)
    | Payload address =>
        if negb (truthy address) then
          (Ok (Json 400 (ErrorBody "Address is required")), m)
        else
          let address := match address with Some a => a | None => "" end in
          match correctAddress env address m with
          | (Ok r, m1) =>
              match correctedAddress r with
              | Some c =>
                  (Ok (Json 200
                         (FormatBody address r (formatAddress c)
                            (generateNominatimUrl
                               (formattedQuery (formatAddress c)))
                            (addUrl "localGovernmentOnly"
                               (alt localGovernmentOnly (formatAddress c))
                               (addUrl "townOnly"
                                  (alt townOnly (formatAddress c))
                                  (addUrl "neighbourhoodOnly"
                                     (alt neighbourhoodOnly (formatAddress c))
                                     []))))),
                   m1)
              | None =>
                  (Ok (Json 500 (ErrorBody "Failed to process address")), m1)
              end
          | (Throw e, m1) =>
              (Ok (Json 500 (ErrorBody "Failed to process address")), m1)
          end
    end.
Proof.
  unfold handleFormatAddress, tryCatch.
  destruct (payload request) as [| address]; [reflexivity |].
  destruct (negb (truthy address)); [reflexivity |].
  cbv zeta. unfold bind at 1.
  destruct (correctAddress env _ m) as [[r | e] m1]; [| reflexivity].
  unfold bind, formatCorrected, ret, throw.
  destruct (correctedAddress r) as [c |]; reflexivity.
Qed.

(** *** Invariants of the agent state *)

Lemma preserves_ret (I : AgentState -> Prop) {A} (a : A) : preserves I (ret a).
Proof. intros m H. exact H. Qed.

Lemma preserves_throw (I : AgentState -> Prop) {A} (e : exn) :
  preserves I (@throw A e).
Proof. intros m H. exact H. Qed.

Lemma preserves_bind (I : AgentState -> Prop) {A B} (c : M A) (k : A -> M B) :
  preserves I c -> (forall a, preserves I (k a)) -> preserves I (bind c k).
Proof.
  intros Hc Hk m H. unfold bind. specialize (Hc m H).
  destruct (c m) as [[a | e] m1]; cbn [snd] in *;
    [apply Hk |]; exact Hc.
Qed.

Lemma preserves_tryCatch (I : AgentState -> Prop) {A} (c : M A)
  (h : exn -> M A) :
  preserves I c -> (forall e, preserves I (h e)) -> preserves I (tryCatch c h).
Proof.
  intros Hc Hh m H. unfold tryCatch. specialize (Hc m H).
  destruct (c m) as [[a | e] m1]; cbn [snd] in *;
    [| apply Hh]; exact Hc.
Qed.

Lemma preserves_getState (I : AgentState -> Prop) : preserves I getState.
Proof. intros m H. exact H. Qed.

Lemma preserves_fetchJson (I : AgentState -> Prop) (env : Env) (url : string) :
  preserves I (fetchJson env url).
Proof.
  intros m H. rewrite fetchJson_cases.
  destruct (geocode env url); exact H.
Qed.

Lemma preserves_correctAddress (I : AgentState -> Prop) (env : Env)
  (address : string) :
  keptByCorrections I -> preserves I (correctAddress env address).
Proof.
  intros HI m H. rewrite correctAddress_cases.
  destruct (answered env) as [[r cs] |] eqn:E; [| exact H].
  apply HI; assumption.
Qed.

Create HintDb preserves.
#[local] Hint Resolve preserves_ret preserves_throw preserves_bind
  preserves_tryCatch preserves_getState preserves_fetchJson
  preserves_correctAddress : preserves.
#[local] Hint Extern 3 (preserves _ (if ?b then _ else _)) =>
  destruct b : preserves.
#[local] Hint Extern 3 (preserves _ (match ?x with _ => _ end)) =>
  destruct x : preserves.

Lemma preserves_searchCascade (I : AgentState -> Prop) (env : Env)
  (query : string) (r : CorrectionResult) (fa : FormattedAddress) :
  preserves I (searchCascade env query r fa).
Proof.
  unfold searchCascade, tryAlternative. auto 20 with preserves.
Qed.

Lemma preserves_onRequest (I : AgentState -> Prop) (env : Env)
  (request : Request) :
  keptByCorrections I -> preserves I (onRequest env request).
Proof.
  intros HI.
  unfold onRequest, handleFormatAddress, handleSearch, getStats,
    searchCascade, tryAlternative, formatCorrected.
  auto 20 with preserves.
Qed.

Lemma preserves_run (I : AgentState -> Prop) (calls : list (Env * Call))
  (m : Machine) :
  keptByCorrections I -> I (agent m) -> I (agent (run calls m)).
Proof.
  intros HI. unfold run. revert m.
  induction calls as [| [env call] calls IH]; intros m H; [exact H |].
  cbn [fold_left]. apply IH.
  destruct call as [address | address | request]; cbn [step].
  - apply preserves_correctAddress; assumption.
  - exact H.
  - apply preserves_onRequest; assumption.
Qed.

Lemma consistent_keptByCorrections : keptByCorrections consistent.
Proof.
  intros env address r cs m _ [Hle Hlen].
  unfold consistent, recordCorrection, history, stats in *. cbn.
  rewrite sliceLast_length, length_app, Hlen. cbn [List.length].
  destruct (List.length cs); split; lia.
Qed.

(** X10.  After every sequence of calls on a fresh agent the statistics
    are consistent: [spellingCorrected] does not exceed [totalProcessed],
    and the history holds one entry per processed address up to 100, that
    is min([totalProcessed], 100) of them. *)
Theorem statistics_stay_consistent :
  forall calls : list (Env * Call),
    spellingCorrected (stats (run calls start))
    <= totalProcessed (stats (run calls start))
    /\ List.length (history (run calls start))
       = Nat.min (totalProcessed (stats (run calls start))) 100.
Proof.
  intros calls.
  apply (preserves_run consistent calls start consistent_keptByCorrections).
  split; cbn; lia.
Qed.

Lemma correctAddress_fetched (env : Env) (address : string) (m : Machine) :
  fetched (snd (correctAddress env address m)) = fetched m.
Proof.
  rewrite correctAddress_cases.
  destruct (answered env) as [[r cs] |]; reflexivity.
Qed.

Lemma searchCascade_agent (env : Env) (query : string) (r : CorrectionResult)
  (fa : FormattedAddress) (m : Machine) :
  agent (snd (searchCascade env query r fa m)) = agent m.
Proof.
  exact (preserves_searchCascade (fun st => st = agent m) env query r fa m
           eq_refl).
Qed.

(** X11.  A request records at most one correction: after [onRequest] the
    agent state is the one before, or the one before with a single
    correction recorded, and the second only on the routes POST
    /format-address and GET /search when the model's reply was parsed. *)
Theorem request_records_at_most_one_correction :
  forall (env : Env) (request : Request) (m : Machine),
    agent (snd (onRequest env request m)) = agent m
    \/ (isCorrectingRoute request = true
        /\ exists (address : string) (r : CorrectionResult) (cs : list string),
            answered env = Some (r, cs)
            /\ agent (snd (onRequest env request m))
               = agent (recordCorrection env address r cs m)).
Proof.
  intros env request m. unfold onRequest, isCorrectingRoute.
  destruct (String.eqb (path request) "/format-address"
            && String.eqb (method request) "POST") eqn:Ef.
  - rewrite handleFormatAddress_cases.
    destruct (payload request) as [| address]; [left; reflexivity |].
    destruct (negb (truthy address)); [left; reflexivity |]. cbv zeta.
    rewrite correctAddress_cases.
    destruct (answered env) as [[r cs] |] eqn:Ea.
    + right. split; [reflexivity |].
      exists (match address with Some a => a | None => "" end), r, cs.
      split; [reflexivity |].
      destruct (correctedAddress r); reflexivity.
    + left. reflexivity.
  - destruct (String.eqb (path request) "/search"
              && String.eqb (method request) "GET") eqn:Es.
    + rewrite handleSearch_cases.
      destruct (negb (truthy (q request))); [left; reflexivity |]. cbv zeta.
      rewrite correctAddress_cases.
      destruct (answered env) as [[r cs] |] eqn:Ea.
      * right. split; [reflexivity |].
        exists (match q request with Some x => x | None => "" end), r, cs.
        split; [reflexivity |].
        destruct (correctedAddress r) as [a |]; [| reflexivity].
        match goal with
        | |- context [searchCascade ?e ?qq ?rr ?fa ?mm] =>
            pose proof (searchCascade_agent e qq rr fa mm) as Hs;
            destruct (searchCascade e qq rr fa mm) as [[resp | ex] m2]
        end; exact Hs.
      * left. cbn [correctedAddress fallback].
        match goal with
        | |- context [searchCascade ?e ?qq ?rr ?fa ?mm] =>
            pose proof (searchCascade_agent e qq rr fa mm) as Hs;
            destruct (searchCascade e qq rr fa mm) as [[resp | ex] m2]
        end; exact Hs.
    + left. destruct (String.eqb (path request) "/stats"
                      && String.eqb (method request) "GET"); reflexivity.
Qed.

(** X12.  [handleFormatAddress] always answers: it never ends in an
    exception and never calls the geocoder; its status is 200, 400 or 500,
    and it is 400 exactly when the body was read and has no non-empty
    [address], in which case nothing has changed. *)
Theorem handleFormatAddress_always_answers :
  forall (env : Env) (request : Request) (m : Machine),
    exists (resp : Response) (m' : Machine),
      handleFormatAddress env request m = (Ok resp, m')
      /\ fetched m' = fetched m
      /\ In (status resp) [200; 400; 500]
      /\ (status resp = 400 <->
          exists a, payload request = Payload a /\ truthy a = false)
      /\ (status resp = 400 -> m' = m).
Proof.
  intros env request m. rewrite handleFormatAddress_cases.
  destruct (payload request) as [| address].
  - do 2 eexists. split; [reflexivity |]. split; [reflexivity |].
    split; [cbn; auto |]. split; [| discriminate].
    split; [discriminate | intros (a & Ha & _); discriminate Ha].
  - destruct (truthy address) eqn:Et; cbn [negb].
    + cbv zeta.
      pose proof (correctAddress_fetched env
                    (match address with Some a => a | None => "" end) m) as Hf.
      destruct (correctAddress env _ m) as [[r | e] m1]; cbn [snd] in Hf.
      * destruct (correctedAddress r) as [c |];
          do 2 eexists; (split; [reflexivity |]); (split; [exact Hf |]);
          (split; [cbn; auto |]); (split; [| discriminate]);
          (split; [discriminate |]);
          intros (a & Ha & Hfalse); injection Ha as <-; congruence.
      * do 2 eexists. split; [reflexivity |]. split; [exact Hf |].
        split; [cbn; auto |]. split; [| discriminate].
        split; [discriminate |].
        intros (a & Ha & Hfalse). injection Ha as <-. congruence.
    + do 2 eexists. split; [reflexivity |]. split; [reflexivity |].
      split; [cbn; auto |]. split; [| reflexivity].
      split; [intros _; eauto | reflexivity].
Qed.



(** *** The response of /format-address *)








(** *** The geocoder calls of a request *)

(** Follows the cascade through every outcome of its tests and of its
    geocoder calls. *)
Ltac explore env :=
  repeat (rewrite ?fetchJson_cases; cbv beta iota;
          match goal with
          | |- context [match geocode env ?u with _ => _ end] =>
              let E := fresh "Hg" in destruct (geocode env u) eqn:E
          | |- context [if ?b then _ else _] =>
              let E := fresh "Hb" in destruct b eqn:E
          end);
  cbv beta iota.

Lemma searchCascade_trace (env : Env) (query : string) (r : CorrectionResult)
  (fa : FormattedAddress) (m : Machine) :
  exists extra : list string,
    fetched (snd (searchCascade env query r fa m))
    = (fetched m ++ generateNominatimUrl (formattedQuery fa) :: extra)%list
    /\ List.length extra <= 2.
Proof.
  unfold searchCascade, tryAlternative, bind, ret.
  destruct (alt townOnly fa) as [t |];
    destruct (alt neighbourhoodOnly fa) as [n |];
    explore env; cbn [snd]; rewrite ?asked_asked; unfold asked;
    cbn [fetched app]; eexists; (split; [reflexivity | cbn; lia]).
Qed.

Lemma handleFormatAddress_fetched (env : Env) (request : Request)
  (m : Machine) :
  fetched (snd (handleFormatAddress env request m)) = fetched m.
Proof.
  rewrite handleFormatAddress_cases.
  destruct (payload request) as [| address]; [reflexivity |].
  destruct (negb (truthy address)); [reflexivity |]. cbv zeta.
  pose proof (correctAddress_fetched env
                (match address with Some a => a | None => "" end) m) as Hf.
  destruct (correctAddress env _ m) as [[r | e] m1]; cbn [snd] in Hf |- *;
    [destruct (correctedAddress r) |]; exact Hf.
Qed.

(** X16.  A request makes at most three geocoder calls, and only GET
    /search makes any: after [onRequest] the trace of calls is the one
    before followed by at most three URLs, none at all on another route. *)
Theorem request_makes_at_most_three_geocoder_calls :
  forall (env : Env) (request : Request) (m : Machine),
    exists urls : list string,
      fetched (snd (onRequest env request m)) = (fetched m ++ urls)%list
      /\ List.length urls <= 3
      /\ (urls <> [] ->
          path request = "/search" /\ method request = "GET").
Proof.
  intros env request m. unfold onRequest.
  destruct (String.eqb (path request) "/format-address"
            && String.eqb (method request) "POST").
  - exists []. rewrite handleFormatAddress_fetched, app_nil_r.
    split; [reflexivity | split; [cbn; lia | congruence]].
  - destruct (String.eqb (path request) "/search"
              && String.eqb (method request) "GET") eqn:Es.
    + apply andb_prop in Es. destruct Es as [Ep Em].
      apply String.eqb_eq in Ep, Em.
      rewrite handleSearch_cases.
      destruct (negb (truthy (q request))).
      { exists []. rewrite app_nil_r.
        split; [reflexivity | split; [cbn; lia | congruence]]. }
      cbv zeta.
      pose proof (correctAddress_fetched env
                    (match q request with Some x => x | None => "" end) m)
        as Hf.
      destruct (correctAddress env _ m) as [[r | e] m1]; cbn [snd] in Hf.
      * destruct (correctedAddress r) as [a |].
        -- match goal with
           | |- context [searchCascade ?e ?qq ?rr ?fa ?mm] =>
               destruct (searchCascade_trace e qq rr fa mm)
                 as (extra & Ht & Hlen);
               destruct (searchCascade e qq rr fa mm) as [[resp | ex] m2]
           end;
             cbn [snd] in Ht |- *; rewrite Ht, Hf; eexists;
             (split; [reflexivity | split; [cbn; lia | auto]]).
        -- exists []. cbn [snd]. rewrite Hf, app_nil_r.
           split; [reflexivity | split; [cbn; lia | congruence]].
      * exists []. cbn [snd]. rewrite Hf, app_nil_r.
        split; [reflexivity | split; [cbn; lia | congruence]].
    + exists []. rewrite app_nil_r.
      destruct (String.eqb (path request) "/stats"
                && String.eqb (method request) "GET");
        (split; [reflexivity | split; [cbn; lia | congruence]]).
Qed.



(** *** The statistics after a correction *)

Lemma sliceLast_sliceLast {A} (n k : nat) (xs : list A) :
  n <= k -> sliceLast n (sliceLast k xs) = sliceLast n xs.
Proof.
  intros H. unfold sliceLast.
  rewrite length_skipn, skipn_skipn. f_equal. lia.
Qed.

Lemma last_sliceLast_snoc {A} (n : nat) (xs : list A) (x d : A) :
  1 <= n -> last (sliceLast n (xs ++ [x])) d = x.
Proof.
  intros H. unfold sliceLast.
  rewrite skipn_app, length_app. cbn [List.length].
  replace (List.length xs + 1 - n - List.length xs) with 0 by lia.
  cbn [skipn]. apply last_last.
Qed.

(** X18.  Right after a correction that was recorded, [getStats] shows
    it: the answer carries the updated counters, its [recentAddresses]
    are the last 10 of the earlier history followed by the new entry, and
    the new entry is the last of them.  [getStats] itself changes
    nothing. *)
Theorem stats_show_the_latest_correction :
  forall (env : Env) (address : string) (m : Machine)
         (r : CorrectionResult) (cs : list string),
    answered env = Some (r, cs) ->
    getStats (snd (correctAddress env address m))
    = (Ok (Json 200
             (StatsBody
                (stats (snd (correctAddress env address m)))
                (sliceLast 10 (history m ++ [newEntry env address r])%list))),
       snd (correctAddress env address m))
    /\ totalProcessed (stats (snd (correctAddress env address m)))
       = S (totalProcessed (stats m))
    /\ forall d : HistoryEntry,
        last (sliceLast 10 (history m ++ [newEntry env address r])%list) d
        = newEntry env address r.
Proof.
  intros env address m r cs Ha. rewrite correctAddress_cases, Ha.
  cbn [snd]. split; [| split].
  - unfold getStats, bind, getState, ret. cbn [agent recordCorrection].
    cbn [processedAddresses]. rewrite sliceLast_sliceLast by lia.
    reflexivity.
  - reflexivity.
  - intros d. apply last_sliceLast_snoc. lia.
Qed.

Lemma stats_show_the_latest_correction_witness :
  answered (envAnswer "Ikeja, Lagos" [] "2025-01-01T00:00:00.000Z")
  = Some (mkResult (Some "Ikeja, Lagos") (Some []) (Some (9 # 10)%Q), [])
  /\ totalProcessed
       (stats
          (snd (correctAddress
                  (envAnswer "Ikeja, Lagos" [] "2025-01-01T00:00:00.000Z")
                  "ikeja lagos" start)))
     = S (totalProcessed (stats start)).
Proof.
  split; [reflexivity |].
  apply (stats_show_the_latest_correction
           (envAnswer "Ikeja, Lagos" [] "2025-01-01T00:00:00.000Z")
           "ikeja lagos" start
           (mkResult (Some "Ikeja, Lagos") (Some []) (Some (9 # 10)%Q)) []).
  reflexivity.
Defined.



End Handlers.

(** * Properties of the address parser worker *)

Section WorkerProperties.
Import JsString Regex Formatter Worker.

Lemma string_append_assoc (a b c : string) :
  ((a ++ b) ++ c = a ++ (b ++ c))%string.
Proof. induction a as [| x a IH]; cbn; [reflexivity | rewrite IH; reflexivity]. Qed.

Lemma substring_prefix (a b : string) :
  substring 0 (String.length a) (a ++ b) = a.
Proof.
  induction a as [| x a IH]; cbn.
  - destruct b; reflexivity.
  - rewrite IH. reflexivity.
Qed.

Lemma afterLast_found (c : ascii) (mid post : string) :
  allChars (fun x => negb (Ascii.eqb x c)) post = true ->
  afterLast c (mid ++ String c post) = Some post.
Proof.
  intros Hpost.
  assert (afterLast c post = None) as Hnone.
  { induction post as [| x post IH]; [reflexivity |].
    cbn in Hpost |- *. apply andb_prop in Hpost. destruct Hpost as [Hx Hp].
    rewrite (IH Hp). apply negb_true_iff in Hx. rewrite Hx. reflexivity. }
  induction mid as [| y mid IH]; cbn.
  - rewrite Hnone, Ascii.eqb_refl. reflexivity.
  - rewrite IH. reflexivity.
Qed.

Lemma afterLast_spec (c : ascii) (s rest : string) :
  afterLast c s = Some rest ->
  exists mid, s = (mid ++ String c rest)%string
              /\ allChars (fun x => negb (Ascii.eqb x c)) rest = true.
Proof.
  revert rest. induction s as [| x s IH]; intros rest H; [discriminate |].
  cbn in H. destruct (afterLast c s) as [r |] eqn:E.
  - injection H as <-. destruct (IH r eq_refl) as (mid & -> & Hr).
    exists (String x mid). split; [reflexivity | exact Hr].
  - destruct (Ascii.eqb_spec x c) as [-> |]; [| discriminate].
    injection H as <-. exists EmptyString. split; [reflexivity |].
    clear IH. induction s as [| y s IH]; [reflexivity |].
    cbn in E |- *. destruct (afterLast c s); [discriminate |].
    destruct (Ascii.eqb y c); [discriminate |]. cbn. apply IH. reflexivity.
Qed.

Lemma afterLast_none (c : ascii) (a b : string) :
  afterLast c (a ++ String c b) <> None.
Proof.
  induction a as [| x a IH]; cbn.
  - destruct (afterLast c b); [discriminate |].
    rewrite Ascii.eqb_refl. discriminate.
  - destruct (afterLast c (a ++ String c b)); [discriminate | contradiction].
Qed.

(** The pattern tried at one index: an opening brace, then everything up
    to the last closing brace. *)
Lemma exec_reBraces (prev : option ascii) (s : string) :
  exec reBraces prev s
  = match s with
    | String x s' => if Ascii.eqb x "{" then afterLast "}" s' else None
    | EmptyString => None
    end.
Proof.
  destruct s as [| x s]; [reflexivity |].
  unfold exec, reBraces. cbn [run Lit].
  destruct (Ascii.eqb x "{"); [| reflexivity].
  generalize (Some x). induction s as [| y s IH]; intros p; [reflexivity |].
  cbn [star]. rewrite IH. cbn [afterLast].
  destruct (afterLast "}" s); reflexivity.
Qed.

Lemma matchFrom_found (pre mid post : string) (prev : option ascii) :
  allChars (fun x => negb (Ascii.eqb x "{")) pre = true ->
  allChars (fun x => negb (Ascii.eqb x "}")) post = true ->
  matchFrom reBraces prev (pre ++ String "{" (mid ++ String "}" post))
  = Some (String "{" (mid ++ String "}" EmptyString)).
Proof.
  intros Hpre Hpost. revert prev.
  induction pre as [| x pre IH]; intros prev.
  - cbn [append matchFrom].
    rewrite exec_reBraces, Ascii.eqb_refl, (afterLast_found "}" mid post Hpost).
    assert (String "{" (mid ++ String "}" post)
            = (String "{" (mid ++ String "}" EmptyString) ++ post)%string)
      as -> by (cbn; rewrite string_append_assoc; reflexivity).
    replace (String.length
               (String "{" (mid ++ String "}" EmptyString) ++ post)
             - String.length post)
      with (String.length (String "{" (mid ++ String "}" EmptyString)))
      by (rewrite string_length_append; lia).
    rewrite substring_prefix. reflexivity.
  - cbn in Hpre. apply andb_prop in Hpre. destruct Hpre as [Hx Hpre].
    apply negb_true_iff in Hx.
    cbn [append matchFrom]. rewrite exec_reBraces, Hx. apply IH, Hpre.
Qed.

Lemma matchFrom_spec (s j : string) (prev : option ascii) :
  matchFrom reBraces prev s = Some j ->
  exists pre mid post,
    outerBraces s pre mid post
    /\ j = String "{" (mid ++ String "}" EmptyString).
Proof.
  revert prev. induction s as [| x s IH]; intros prev H.
  - cbn in H. discriminate.
  - cbn [matchFrom] in H. rewrite exec_reBraces in H.
    destruct (Ascii.eqb_spec x "{") as [-> | Hx].
    + destruct (afterLast "}" s) as [rest |] eqn:E.
      * destruct (afterLast_spec _ _ _ E) as (mid & -> & Hrest).
        exists EmptyString, mid, rest.
        split; [split; [reflexivity | split; [reflexivity | exact Hrest]] |].
        pose proof (matchFrom_found EmptyString mid rest prev eq_refl Hrest)
          as F.
        cbn [append matchFrom] in F.
        rewrite exec_reBraces, Ascii.eqb_refl,
          (afterLast_found "}" mid rest Hrest) in F.
        rewrite F in H. injection H as <-. reflexivity.
      * destruct (IH _ H) as (pre & mid & post & (-> & _ & _) & _).
        exfalso. revert E.
        replace (pre ++ String "{" (mid ++ String "}" post))%string
          with ((pre ++ String "{" mid) ++ String "}" post)%string
          by (rewrite string_append_assoc; reflexivity).
        apply afterLast_none.
    + destruct (IH _ H) as (pre & mid & post & (-> & Hpre & Hpost) & ->).
      exists (String x pre), mid, post.
      split; [split; [reflexivity | split; [| exact Hpost]] | reflexivity].
      cbn. rewrite Hpre.
      destruct (Ascii.eqb_spec x "{"); [contradiction | reflexivity].
Qed.

(** X20.  The JSON candidate that the repair step hands to [JSON.parse]
    is the text from the first opening brace to the last closing brace:
    the match of the brace pattern on [s] is [j] exactly when [s] has an
    opening brace with a closing brace after it and [j] runs from the
    first such opening brace to the last closing brace, both included.
    Without such a pair there is no match. *)
Theorem json_candidate_is_the_outer_brace_span :
  forall s j : string,
    matchFirst reBraces s = Some j
    <-> exists pre mid post,
          outerBraces s pre mid post
          /\ j = String "{" (mid ++ String "}" EmptyString).
Proof.
  intros s j. split.
  - apply matchFrom_spec.
  - intros (pre & mid & post & (-> & Hpre & Hpost) & ->).
    apply matchFrom_found; assumption.
Qed.

(** X21.  For an accepted query and a reply that is a string, the
    worker answers 200 with a value [v] in two cases only: [JSON.parse]
    accepts the reply as it is and gives [v], or it rejects the reply and
    accepts, with value [v], the text between the first opening and the
    last closing brace of the cleaned reply.  In every other case the
    answer is the 500 whose details are "Failed to parse AI response as
    JSON". *)
Theorem worker_parses_reply_or_its_brace_span :
  forall (J : Type) (parse : string -> option J) (q : option string)
         (text : string),
    truthy q = true ->
    (forall v : J,
        fetch J parse q (RunText text) = Parsed v
        <-> (parse text = Some v
             \/ (parse text = None
                 /\ exists pre mid post,
                     outerBraces (cleanedString text) pre mid post
                     /\ parse (String "{" (mid ++ String "}" EmptyString))
                        = Some v)))
    /\ ((forall v : J, fetch J parse q (RunText text) <> Parsed v) ->
        fetch J parse q (RunText text)
        = Failed "Failed to process address"
            "Failed to parse AI response as JSON").
Proof.
  intros J parse q text Ht. unfold fetch, cleanAndParse. rewrite Ht.
  cbn [negb]. split.
  - intros v. split.
    + destruct (parse text) as [v0 |] eqn:Ep.
      * intros H. injection H as <-. left. reflexivity.
      * destruct (matchFirst reBraces (cleanedString text)) as [j |] eqn:Em;
          [| discriminate].
        destruct (parse j) as [v0 |] eqn:Ej; [| discriminate].
        intros H. injection H as <-. right. split; [reflexivity |].
        destruct (matchFrom_spec _ _ _ Em) as (pre & mid & post & Hb & ->).
        exists pre, mid, post. split; assumption.
    + intros [Hp | (Hp & pre & mid & post & (Hs & Hpre & Hpost) & Hj)].
      * rewrite Hp. reflexivity.
      * rewrite Hp. unfold matchFirst. rewrite Hs.
        rewrite (matchFrom_found pre mid post None Hpre Hpost), Hj.
        reflexivity.
  - intros Hno.
    destruct (parse text) as [v0 |]; [exfalso; exact (Hno v0 eq_refl) |].
    destruct (matchFirst reBraces (cleanedString text)) as [j |];
      [| reflexivity].
    destruct (parse j) as [v0 |]; [exfalso; exact (Hno v0 eq_refl) |].
    reflexivity.
Qed.

Lemma worker_parses_reply_or_its_brace_span_witness :
  truthy (Some "alen avenue") = true
  /\ braceParse "Sure:\n{ok}\nbye" = None
  /\ cleanedString "Sure:\n{ok}\nbye" = "Sure:{ok}bye"
  /\ fetch string braceParse (Some "alen avenue") (RunText "Sure:\n{ok}\nbye")
     = Parsed "{ok}".
Proof.
  split; [reflexivity |]. split; [reflexivity |].
  split; [vm_compute; reflexivity |].
  apply (proj1 (worker_parses_reply_or_its_brace_span string braceParse
                  (Some "alen avenue") "Sure:\n{ok}\nbye" eq_refl) "{ok}").
  right. split; [reflexivity |].
  exists "Sure:", "ok", "bye".
  split; [| reflexivity].
  split; [vm_compute; reflexivity | split; reflexivity].
Defined.

End WorkerProperties.